(** * The address-book assistant of [updated_botik.py]

    A shallow embedding of the field types ([Phone], [Birthday]), of
    [Record], of [AddressBook] and of the command handlers, followed by the
    properties proved about them.

    Python strings are embedded as [string]; a character is its code point,
    so the embedding covers the code points below 256.  On that range the
    regular-expression class [\d] is exactly the ten characters 0-9. *)

From Stdlib Require Import ZArith Ascii String List Bool Lia.
From stdpp Require Import base tactics option list.

Local Open Scope string_scope.
Local Open Scope Z_scope.

(** ** Characters and digit strings *)

Module Chars.

(** [\d] on one character. *)
Definition is_digit (c : ascii) : bool :=
  let n := Z.of_N (N_of_ascii c) in (48 <=? n) && (n <=? 57).

(** The value of a digit character, as [int] reads it. *)
Definition digit_val (c : ascii) : Z := Z.of_N (N_of_ascii c) - 48.

(** The character of a one-digit number. *)
Definition digit_char (n : Z) : ascii := ascii_of_N (Z.to_N (n + 48)).

Fixpoint all_digits (s : string) : bool :=
  match s with
  | EmptyString => true
  | String c s' => is_digit c && all_digits s'
  end.

Fixpoint no_digits (s : string) : bool :=
  match s with
  | EmptyString => true
  | String c s' => negb (is_digit c) && no_digits s'
  end.

(** [s] does not continue a run of digits: it is empty or starts with a
    character that is not a digit. *)
Definition run_stops (s : string) : bool :=
  match s with
  | EmptyString => true
  | String c _ => negb (is_digit c)
  end.

(** [int] on a string of digits, most significant first. *)
Fixpoint int_of_digits_from (acc : Z) (s : string) : Z :=
  match s with
  | EmptyString => acc
  | String c s' => int_of_digits_from (10 * acc + digit_val c) s'
  end.

Definition int_of_digits (s : string) : Z := int_of_digits_from 0 s.

(** Zero-padded decimal rendering: on two digits, as [%d] and [%m] print a
    number, and on four digits, as a year is written for [strptime]. *)
Definition pad2 (n : Z) : string :=
  String (digit_char (n / 10 mod 10)) (String (digit_char (n mod 10)) "").

Definition pad4 (n : Z) : string :=
  String (digit_char (n / 1000 mod 10))
    (String (digit_char (n / 100 mod 10)) (pad2 n)).

End Chars.
Import Chars.

(** ** Exceptions and results *)

(** The exception classes the program raises or lets through.
    [InvalidReference] is not one of Python's: it marks reading a reference
    that the object store does not hold, which no reachable state does (see
    [wf_state] and its preservation lemmas). *)
Inductive Exn : Type :=
  | ValueError (msg : string)
  | IndexError (msg : string)
  | KeyError (msg : string)
  | AttributeError (msg : string)
  | OverflowError (msg : string)
  | InvalidReference.

(** A computation that returns or raises. *)
Definition result (A : Type) : Type := Exn + A.

Abbreviation Ok := inr.
Abbreviation Raise := inl.

(** ** Field types *)

(** [re.findall(r'\d+', s)]: the maximal runs of digits of [s], from left
    to right.  [run] is the run being read, [None] between two runs. *)
Fixpoint findall_digits_from (run : option string) (s : string) : list string :=
  match s with
  | EmptyString =>
      match run with Some r => [r] | None => [] end
  | String c s' =>
      if is_digit c then
        findall_digits_from
          (Some (match run with Some r => r ++ String c "" | None => String c "" end)) s'
      else
        match run with
        | Some r => r :: findall_digits_from None s'
        | None => findall_digits_from None s'
        end
  end.

Definition findall_digits (s : string) : list string :=
  findall_digits_from None s.

(** [Phone]: a [Field] whose [value] is the string it was built from. *)
Record Phone : Type := mkPhone { phone_value : string }.

Definition phone_error : string := "Phone number must contain 10 digits".

(** [Phone.__init__]. *)
Definition Phone_init (num : string) : result Phone :=
  match findall_digits num with
  | n0 :: _ =>
      if (String.length n0 =? 10)%nat then Ok (mkPhone num)
      else Raise (ValueError phone_error)
  | [] => Raise (ValueError phone_error)
  end.

(** [Field.__str__] on a phone. *)
Definition Phone_str (p : Phone) : string := phone_value p.

(** A value that can stand on the right of [==]: a string or a phone. *)
Inductive pyval : Type :=
  | VStr (s : string)
  | VPhone (p : Phone).

(** [s == v] for a string [s].  [str.__eq__] answers only for strings; for
    a phone it returns [NotImplemented] and Python asks the reflected
    [Phone.__eq__(p, s)], which compares [p.value] with [s] as strings. *)
Definition str_eq (s : string) (v : pyval) : bool :=
  match v with
  | VStr t => String.eqb s t
  | VPhone p => String.eqb (phone_value p) s
  end.

(** [Phone.__eq__]: [self.value == another_value]. *)
Definition Phone_eq (self : Phone) (another_value : pyval) : bool :=
  str_eq (phone_value self) another_value.

Arguments Phone_eq : simpl never.

(** ** Calendar dates ([datetime.date]) *)

Record date : Type := mkdate { year : Z; month : Z; day : Z }.

Definition MINYEAR : Z := 1.
Definition MAXYEAR : Z := 9999.

Definition is_leap (y : Z) : bool :=
  (y mod 4 =? 0) && (negb (y mod 100 =? 0) || (y mod 400 =? 0)).

Definition days_in_month (y m : Z) : Z :=
  if m =? 2 then (if is_leap y then 29 else 28)
  else if (m =? 4) || (m =? 6) || (m =? 9) || (m =? 11) then 30
  else 31.

Definition day_error : string := "day is out of range for month".

(** [date(y, m, d)].  Of the three messages only [day_error] can reach the
    user of this program. *)
Definition date_new (y m d : Z) : result date :=
  if negb ((MINYEAR <=? y) && (y <=? MAXYEAR)) then
    Raise (ValueError "year is out of range")
  else if negb ((1 <=? m) && (m <=? 12)) then
    Raise (ValueError "month must be in 1..12")
  else if negb ((1 <=? d) && (d <=? days_in_month y m)) then
    Raise (ValueError day_error)
  else Ok (mkdate y m d).

(** The dates [date_new] builds. *)
Definition date_valid (t : date) : bool :=
  (MINYEAR <=? year t) && (year t <=? MAXYEAR) &&
  (1 <=? month t) && (month t <=? 12) &&
  (1 <=? day t) && (day t <=? days_in_month (year t) (month t)).

(** [t.replace(year=y)]. *)
Definition date_replace_year (t : date) (y : Z) : result date :=
  date_new y (month t) (day t).

(** [a <= b]: dates compare as (year, month, day). *)
Definition date_le (a b : date) : bool :=
  (year a <? year b) ||
  ((year a =? year b) &&
   ((month a <? month b) || ((month a =? month b) && (day a <=? day b)))).

(** The day after [t]; there is none after 31.12.9999. *)
Definition date_next (t : date) : result date :=
  if day t <? days_in_month (year t) (month t) then
    Ok (mkdate (year t) (month t) (day t + 1))
  else if month t <? 12 then Ok (mkdate (year t) (month t + 1) 1)
  else if year t <? MAXYEAR then Ok (mkdate (year t + 1) 1 1)
  else Raise (OverflowError "date value out of range").

(** [t + timedelta(days=n)] for [n >= 0]. *)
Fixpoint date_add_days (t : date) (n : nat) : result date :=
  match n with
  | O => Ok t
  | S n' =>
      match date_next t with
      | inr t' => date_add_days t' n'
      | inl e => Raise e
      end
  end.

(** [%Y] as the C library prints it for the program: the year as a decimal
    number without leading zeros, so three digits for the year 999. *)
Definition year_text (y : Z) : string :=
  if y <? 10 then String (digit_char (y mod 10)) ""
  else if y <? 100 then pad2 y
  else if y <? 1000 then String (digit_char (y / 100 mod 10)) (pad2 y)
  else pad4 y.

(** [t.strftime("%d.%m.%Y")]: day and month on two digits, the year as
    [%Y] prints it. *)
Definition date_strftime (t : date) : string :=
  pad2 (day t) ++ "." ++ pad2 (month t) ++ "." ++ year_text (year t).

(** *** [datetime.strptime(s, "%d.%m.%Y").date()]

    [strptime] turns the format into the regular expression
    [(3[0-1]|[1-2]\d|0[1-9]|[1-9]| [1-9])\.(1[0-2]|0[1-9]|[1-9])\.(\d\d\d\d)],
    matches it at the start of the text, refuses text left over, converts
    the three groups with [int] and builds the date. *)

Module Strptime.

(** An alternative of a group: the text it matches and what follows. *)
Definition alternative : Type := string -> option (string * string).

Definition one (p : ascii -> bool) : alternative := fun s =>
  match s with
  | String a r => if p a then Some (String a "", r) else None
  | _ => None
  end.

Definition two (p q : ascii -> bool) : alternative := fun s =>
  match s with
  | String a (String b r) =>
      if p a && q b then Some (String a (String b ""), r) else None
  | _ => None
  end.

Definition chr (c : ascii) (a : ascii) : bool := Ascii.eqb a c.

Definition between (lo hi : ascii) (a : ascii) : bool :=
  is_digit a && (digit_val lo <=? digit_val a) && (digit_val a <=? digit_val hi).

(** [3[0-1]|[1-2]\d|0[1-9]|[1-9]| [1-9]] *)
Definition day_alternatives : list alternative :=
  [ two (chr "3") (between "0" "1");
    two (between "1" "2") is_digit;
    two (chr "0") (between "1" "9");
    one (between "1" "9");
    two (chr " ") (between "1" "9") ].

(** [1[0-2]|0[1-9]|[1-9]] *)
Definition month_alternatives : list alternative :=
  [ two (chr "1") (between "0" "2");
    two (chr "0") (between "1" "9");
    one (between "1" "9") ].

(** Ordered choice with backtracking: the first alternative after which
    the rest of the expression [k] matches. *)
Fixpoint first_match {A} (alts : list alternative)
    (k : string -> string -> option A) (s : string) : option A :=
  match alts with
  | [] => None
  | alt :: alts' =>
      match alt s with
      | Some (txt, rest) =>
          match k txt rest with
          | Some r => Some r
          | None => first_match alts' k s
          end
      | None => first_match alts' k s
      end
  end.

(** [\.] *)
Definition dot {A} (k : string -> option A) (s : string) : option A :=
  match s with
  | String "." r => k r
  | _ => None
  end.

(** [\d\d\d\d] *)
Definition year_group : alternative := fun s =>
  match s with
  | String a (String b (String c (String d r))) =>
      if is_digit a && is_digit b && is_digit c && is_digit d
      then Some (String a (String b (String c (String d ""))), r)
      else None
  | _ => None
  end.

(** [format_regex.match(data_string)]: the groups [d], [m], [Y] and the
    text after the match. *)
Definition regex_match (s : string) : option (string * string * string * string) :=
  first_match day_alternatives (fun d r1 =>
    dot (fun r2 =>
      first_match month_alternatives (fun m r3 =>
        dot (fun r4 =>
          match year_group r4 with
          | Some (Y, rest) => Some (d, m, Y, rest)
          | None => None
          end) r3) r2) r1) s.

(** [int] on a group: white space around the digits is ignored. *)
Definition py_int (s : string) : Z :=
  match s with
  | String " " s' => int_of_digits s'
  | _ => int_of_digits s
  end.

Definition strptime (s : string) : result date :=
  match regex_match s with
  | None => Raise (ValueError "time data does not match format")
  | Some (d, m, Y, rest) =>
      match rest with
      | EmptyString => date_new (py_int Y) (py_int m) (py_int d)
      | _ => Raise (ValueError "unconverted data remains")
      end
  end.

End Strptime.

(** [Birthday]: a [Field] whose [value] is a date. *)
Record Birthday : Type := mkBirthday { birthday_value : date }.

Definition date_error : string := "Invalid date format. Use DD.MM.YYYY".

(** [Birthday.__init__]: every [ValueError] of the parse is replaced. *)
Definition Birthday_init (value : string) : result Birthday :=
  match Strptime.strptime value with
  | inr t => Ok (mkBirthday t)
  | inl (ValueError _) => Raise (ValueError date_error)
  | inl e => Raise e
  end.

(** [Birthday.__str__]. *)
Definition Birthday_str (b : Birthday) : string :=
  date_strftime (birthday_value b).

(** ** Computations on a mutable object

    A method changes the object it is called on and returns or raises; what
    it changed before raising stays changed. *)

Definition M (S A : Type) : Type := S -> result A * S.

#[global] Instance M_ret {S} : MRet (M S) := fun A a s => (Ok a, s).

#[global] Instance M_bind {S} : MBind (M S) := fun A B f m s =>
  match m s with
  | (inr a, s') => f a s'
  | (inl e, s') => (inl e, s')
  end.

Definition raise {S A} (e : Exn) : M S A := fun s => (Raise e, s).

(** A computation without effect on the object. *)
Definition pure {S A} (r : result A) : M S A := fun s => (r, s).

Definition get {S} : M S S := fun s => (Ok s, s).

Definition put {S} (s : S) : M S unit := fun _ => (Ok tt, s).

(** ** [Record] *)

Record Record_ : Type := mkRecord {
  name : string;
  phones : list Phone;
  birthday : option Birthday
}.

(** [Record.__init__]. *)
Definition Record_init (name : string) : Record_ := mkRecord name [] None.

Definition set_phones (ps : list Phone) : M Record_ unit := fun self =>
  (Ok tt, mkRecord (name self) ps (birthday self)).

Definition set_birthday (b : Birthday) : M Record_ unit := fun self =>
  (Ok tt, mkRecord (name self) (phones self) (Some b)).

(** [x in l] on a list of phones: some item [e] has [e == x]. *)
Definition list_contains (x : Phone) (l : list Phone) : bool :=
  existsb (fun e => Phone_eq e (VPhone x)) l.

(** [l.remove(x)]: the list without its first item equal to [x]. *)
Fixpoint list_remove (x : Phone) (l : list Phone) : result (list Phone) :=
  match l with
  | [] => Raise (ValueError "list.remove(x): x not in list")
  | e :: l' =>
      if Phone_eq e (VPhone x) then Ok l'
      else match list_remove x l' with
           | inr r => Ok (e :: r)
           | inl err => Raise err
           end
  end.

(** [l.index(x)]: the position of the first item equal to [x]. *)
Fixpoint list_index (x : Phone) (l : list Phone) : result nat :=
  match l with
  | [] => Raise (ValueError "x is not in list")
  | e :: l' =>
      if Phone_eq e (VPhone x) then Ok O
      else match list_index x l' with
           | inr i => Ok (S i)
           | inl err => Raise err
           end
  end.

Definition removed_msg : string := "Removed successfully.".
Definition nothing_to_delete_msg : string :=
  "This user has not such number. Nothing to delete!".
Definition changed_msg : string := "Number has changed.".
Definition nothing_to_change_msg : string :=
  "This user has not such number. Nothing to change!".

Definition add_phone (phone : string) : M Record_ bool :=
  phone_obj ← pure (Phone_init phone);
  self ← get;
  set_phones (phones self ++ [phone_obj]);;
  mret true.

Definition remove_phone (phone : string) : M Record_ string :=
  phone_obj ← pure (Phone_init phone);
  self ← get;
  if list_contains phone_obj (phones self) then
    ps ← pure (list_remove phone_obj (phones self));
    set_phones ps;;
    mret removed_msg
  else mret nothing_to_delete_msg.

(** In [self.phones[i] = Phone(new_phone)] the right-hand side is evaluated
    first, then the index; the index comes from [index], so the assignment
    is within the list. *)
Definition edit_phone (old_phone new_phone : string) : M Record_ string :=
  old_phone_obj ← pure (Phone_init old_phone);
  self ← get;
  if list_contains old_phone_obj (phones self) then
    new_phone_obj ← pure (Phone_init new_phone);
    i ← pure (list_index old_phone_obj (phones self));
    set_phones (<[i := new_phone_obj]> (phones self));;
    mret changed_msg
  else mret nothing_to_change_msg.

(** [Record.add_birthday]. *)
Definition Record_add_birthday (birthday : string) : M Record_ unit :=
  b ← pure (Birthday_init birthday);
  set_birthday b.

(** [', '.join(l)]. *)
Fixpoint join (sep : string) (l : list string) : string :=
  match l with
  | [] => ""
  | [x] => x
  | x :: l' => x ++ sep ++ join sep l'
  end.

(** [Record.__str__]. *)
Definition Record_str (self : Record_) : string :=
  let phones_str := join ", " (map Phone_str (phones self)) in
  let birthday_str :=
    match birthday self with
    | Some b => Birthday_str b
    | None => "No birthday set"
    end in
  "Contact name: " ++ name self ++ ", phones: " ++ phones_str
    ++ ", birthday: " ++ birthday_str.

(** ** [AddressBook]

    Records are objects: the book's dictionary holds references to them,
    and a handler that got a record from [find] changes the very object the
    book refers to.  A state is the object store together with the
    dictionary [data], which keeps its keys in insertion order. *)

Definition loc : Type := nat.

Record State : Type := mkState {
  heap : list Record_;
  data : list (string * loc)
}.

(** [AddressBook()]: no record yet. *)
Definition AddressBook_init : State := mkState [] [].

(** [d.get(k)]. *)
Fixpoint dict_get (k : string) (d : list (string * loc)) : option loc :=
  match d with
  | [] => None
  | (k', v) :: d' => if String.eqb k' k then Some v else dict_get k d'
  end.

(** [d[k] = v]: an existing key keeps its place, a new key goes last. *)
Fixpoint dict_set (k : string) (v : loc) (d : list (string * loc))
    : list (string * loc) :=
  match d with
  | [] => [(k, v)]
  | (k', v') :: d' =>
      if String.eqb k' k then (k', v) :: d' else (k', v') :: dict_set k v d'
  end.

(** [del d[k]]. *)
Fixpoint dict_del (k : string) (d : list (string * loc)) : list (string * loc) :=
  match d with
  | [] => []
  | (k', v') :: d' =>
      if String.eqb k' k then d' else (k', v') :: dict_del k d'
  end.

(** [d.values()]. *)
Definition dict_values (d : list (string * loc)) : list loc := map snd d.

(** Reading the object behind a reference. *)
Definition deref (l : loc) : M State Record_ := fun st =>
  match heap st !! l with
  | Some r => (Ok r, st)
  | None => (Raise InvalidReference, st)
  end.

(** Calling a method on the object behind a reference. *)
Definition call {A} (l : loc) (method : M Record_ A) : M State A := fun st =>
  match heap st !! l with
  | Some r =>
      let '(res, r') := method r in
      (res, mkState (<[l := r']> (heap st)) (data st))
  | None => (Raise InvalidReference, st)
  end.

(** [Record(name)]: a new object. *)
Definition new_Record (name : string) : M State loc := fun st =>
  (Ok (length (heap st)), mkState (heap st ++ [Record_init name]) (data st)).

(** The methods of the class. *)
Module AddressBook.

Definition add_record (record : loc) : M State unit :=
  r ← deref record;
  st ← get;
  put (mkState (heap st) (dict_set (name r) record (data st))).

Definition find (name : string) : M State (option loc) := fun st =>
  (Ok (dict_get name (data st)), st).

Definition delete (name : string) : M State unit := fun st =>
  match dict_get name (data st) with
  | Some _ => (Ok tt, mkState (heap st) (dict_del name (data st)))
  | None => (Ok tt, st)
  end.

(** The loop of [get_upcoming_birthdays] over [self.data.values()];
    [result] is the list built so far.  [today <= b <= today + 7 days]
    computes the right-hand date only when the left comparison holds. *)
Fixpoint upcoming_loop (today : date) (records : list loc) (result : list string)
    : M State (list string) :=
  match records with
  | [] => mret result
  | l :: records' =>
      record ← deref l;
      match birthday record with
      | Some b =>
          birthday_this_year ←
            pure (date_replace_year (birthday_value b) (year today));
          in_window ←
            (if date_le today birthday_this_year then
               last_day ← pure (date_add_days today 7);
               mret (date_le birthday_this_year last_day)
             else mret false);
          if in_window : bool then
            upcoming_loop today records'
              (result ++ [name record ++ ": " ++ date_strftime birthday_this_year])
          else upcoming_loop today records' result
      | None => upcoming_loop today records' result
      end
  end.

(** [get_upcoming_birthdays]; [today] is what the clock answers to
    [datetime.today().date()]. *)
Definition get_upcoming_birthdays (today : date) : M State (list string) :=
  st ← get;
  upcoming_loop today (dict_values (data st)) [].

End AddressBook.

(** ** Command handlers

    A handler receives the argument tokens and works on the book; the
    decorator [input_error] turns four exception classes into messages and
    lets every other exception through.  The [print] calls of the handlers
    write to the console only and are left out. *)

Definition input_error (func : M State string) : M State string := fun st =>
  match func st with
  | (inl (ValueError e), st') => (Ok e, st')
  | (inl (IndexError _), st') => (Ok "Not enough arguments provided.", st')
  | (inl (KeyError _), st') => (Ok "Contact not found.", st')
  | (inl (AttributeError _), st') => (Ok "Attribute error.", st')
  | r => r
  end.

Definition not_enough : Exn := IndexError "Not enough arguments provided.".
Definition no_such_user : string := "No such user in address book!".
Definition newline : string := String (ascii_of_nat 10) "".

(** The test on [len(args)] and the unpacking [name, phone, *_ = args] are
    one pattern match, here and in the handlers below. *)
Definition add_contact_func (args : list string) : M State string :=
  match args with
  | name :: phone :: _ =>
      found ← AddressBook.find name;
      match found with
      | None =>
          record ← new_Record name;
          AddressBook.add_record record;;
          call record (add_phone phone);;
          mret "Contact added."
      | Some record =>
          call record (add_phone phone);;
          mret "Contact updated."
      end
  | _ => raise not_enough
  end.

Definition add_contact (args : list string) : M State string :=
  input_error (add_contact_func args).

Definition add_birthday_func (args : list string) : M State string :=
  match args with
  | name :: birthday :: _ =>
      found ← AddressBook.find name;
      match found with
      | None => mret no_such_user
      | Some record =>
          call record (Record_add_birthday birthday);;
          mret "Birthday was added."
      end
  | _ => raise not_enough
  end.

Definition add_birthday (args : list string) : M State string :=
  input_error (add_birthday_func args).

Definition show_birthday_func (args : list string) : M State string :=
  match args with
  | name :: _ =>
      found ← AddressBook.find name;
      match found with
      | None => mret no_such_user
      | Some l =>
          record ← deref l;
          match birthday record with
          | Some b => mret (name ++ "'s birthday is on " ++ Birthday_str b)
          | None => mret "Birthday not set for this contact."
          end
      end
  | _ => raise not_enough
  end.

Definition show_birthday (args : list string) : M State string :=
  input_error (show_birthday_func args).

Definition birthdays_func (today : date) (args : list string) : M State string :=
  upcoming_birthdays ← AddressBook.get_upcoming_birthdays today;
  match upcoming_birthdays with
  | [] => mret "No upcoming birthdays."
  | _ => mret (join newline upcoming_birthdays)
  end.

Definition birthdays (today : date) (args : list string) : M State string :=
  input_error (birthdays_func today args).

(** [[str(record) for record in book.data.values()]]. *)
Fixpoint str_all (records : list loc) : M State (list string) :=
  match records with
  | [] => mret []
  | l :: records' =>
      record ← deref l;
      lines ← str_all records';
      mret (Record_str record :: lines)
  end.

Definition show_all_func (args : list string) : M State string :=
  st ← get;
  match data st with
  | [] => mret "No contacts in address book."
  | _ =>
      lines ← str_all (dict_values (data st));
      mret (join newline lines)
  end.

Definition show_all (args : list string) : M State string :=
  input_error (show_all_func args).

Definition show_phone_func (args : list string) : M State string :=
  match args with
  | name :: _ =>
      found ← AddressBook.find name;
      match found with
      | None => mret no_such_user
      | Some l =>
          record ← deref l;
          mret (join ", " (map Phone_str (phones record)))
      end
  | _ => raise not_enough
  end.

Definition show_phone (args : list string) : M State string :=
  input_error (show_phone_func args).

Definition change_phone_func (args : list string) : M State string :=
  match args with
  | name :: old_phone :: new_phone :: _ =>
      found ← AddressBook.find name;
      match found with
      | None => mret no_such_user
      | Some record => call record (edit_phone old_phone new_phone)
      end
  | _ => raise not_enough
  end.

Definition change_phone (args : list string) : M State string :=
  input_error (change_phone_func args).


(** ** The notions the specification uses *)

Module Spec.

(** The first maximal run of digits of [s] is [run]: before it no digit,
    after it the text ends or goes on with a character that is no digit. *)
Definition first_digit_run (s run : string) : Prop :=
  exists pre post,
    s = pre ++ run ++ post /\
    no_digits pre = true /\
    all_digits run = true /\ run <> "" /\
    run_stops post = true.

(** The phone rule in the specification's words: the first maximal run of
    digits has exactly ten digits. *)
Definition phone_rule (s : string) : Prop :=
  exists run, first_digit_run s run /\ String.length run = 10%nat.

(** Normalising a phone text in the specification's sense: keeping the run
    of digits that validation looks at. *)
Definition normalize (s : string) : option string := head (findall_digits s).

(** The strict shape [DD.MM.YYYY]: two digits, a dot, two digits, a dot,
    four digits, and nothing else. *)
Definition strict_shape (s : string) : bool :=
  match s with
  | String d1 (String d2 (String p1 (String m1 (String m2 (String p2
      (String y1 (String y2 (String y3 (String y4 EmptyString))))))))) =>
      is_digit d1 && is_digit d2 && Ascii.eqb p1 "." &&
      is_digit m1 && is_digit m2 && Ascii.eqb p2 "." &&
      is_digit y1 && is_digit y2 && is_digit y3 && is_digit y4
  | _ => false
  end.

(** The date a text of the strict shape writes. *)
Definition strict_date (s : string) : date :=
  mkdate (int_of_digits (substring 6 4 s))
         (int_of_digits (substring 3 2 s))
         (int_of_digits (substring 0 2 s)).

(** The birthday rule in the specification's words: strict shape and a
    real calendar date. *)
Definition strict_birthday (s : string) : bool :=
  strict_shape s && date_valid (strict_date s).

(** The texts [strptime] takes for a day or a month number [n]: written on
    two digits, or a one-digit number written plainly; for a day also a
    one-digit number after one blank. *)
Definition month_text (n : Z) (txt : string) : Prop :=
  txt = pad2 n \/ (n < 10 /\ txt = String (digit_char n) "").

Definition day_text (n : Z) (txt : string) : Prop :=
  month_text n txt \/ (n < 10 /\ txt = String " " (String (digit_char n) "")).

(** The texts [Birthday] accepts for the date [t]. *)
Definition accepted (s : string) (t : date) : Prop :=
  date_valid t = true /\
  exists dt mt,
    day_text (day t) dt /\ month_text (month t) mt /\
    s = dt ++ "." ++ mt ++ "." ++ pad4 (year t).

(** A birthday moved to the year of [today], month and day kept. *)
Definition remapped (today : date) (b : Birthday) : date :=
  mkdate (year today) (month (birthday_value b)) (day (birthday_value b)).

(** The remapped birthday lies in the window from [today] to [last_day],
    both included. *)
Definition in_window (today last_day : date) (b : Birthday) : bool :=
  date_le today (remapped today b) && date_le (remapped today b) last_day.

(** The line of a record in the list of upcoming birthdays, if it has one. *)
Definition upcoming_line (today last_day : date) (r : Record_) : option string :=
  match birthday r with
  | Some b =>
      if in_window today last_day b
      then Some (name r ++ ": " ++ date_strftime (remapped today b))
      else None
  | None => None
  end.

(** How often [x] occurs in a list of phones, counted with the equality
    the list operations use. *)
Definition occurrences (x : Phone) (l : list Phone) : nat :=
  length (List.filter (fun e => Phone_eq e (VPhone x)) l).

(** A birthday on 29 February. *)
Definition on_feb_29 (b : Birthday) : bool :=
  (month (birthday_value b) =? 2) && (day (birthday_value b) =? 29).

End Spec.

(** ** Well-formed states *)

(** The records of the book, in the order of the dictionary. *)
Definition records_of (st : State) : list Record_ :=
  omap (fun l => heap st !! l) (dict_values (data st)).

(** Every reference of the dictionary is held by the store, and every
    stored birthday is a date of the calendar. *)
Definition wf_state (st : State) : Prop :=
  (forall l, In l (dict_values (data st)) -> is_Some (heap st !! l)) /\
  (forall r b, In r (heap st) -> birthday r = Some b ->
     date_valid (birthday_value b) = true).

(** A command that can change the book. *)
Inductive step : State -> State -> Prop :=
  | step_add_contact (args : list string) (st : State) :
      step st (snd (add_contact args st))
  | step_change_phone (args : list string) (st : State) :
      step st (snd (change_phone args st))
  | step_add_birthday (args : list string) (st : State) :
      step st (snd (add_birthday args st)).

(** The states a session reaches from the empty book. *)
Inductive reachable : State -> Prop :=
  | reachable_init : reachable AddressBook_init
  | reachable_step (st st' : State) :
      reachable st -> step st st' -> reachable st'.

(** ** Reading a command line *)

Module Text.

(** The characters [str.split()] and [str.strip()] take for white space,
    among the code points below 256: tab to carriage return, the four
    separators 28 to 31, the blank, and the code points 133 and 160. *)
Definition is_space (c : ascii) : bool :=
  let n := Z.of_N (N_of_ascii c) in
  ((9 <=? n) && (n <=? 13)) || ((28 <=? n) && (n <=? 32)) ||
  (n =? 133) || (n =? 160).

Fixpoint all_space (s : string) : bool :=
  match s with
  | EmptyString => true
  | String c s' => is_space c && all_space s'
  end.

Fixpoint no_space (s : string) : bool :=
  match s with
  | EmptyString => true
  | String c s' => negb (is_space c) && no_space s'
  end.

(** A word: a text that is not empty and has no white space. *)
Definition word (t : string) : Prop := t <> "" /\ no_space t = true.

(** [s.lstrip()]. *)
Fixpoint str_lstrip (s : string) : string :=
  match s with
  | EmptyString => EmptyString
  | String c s' => if is_space c then str_lstrip s' else s
  end.

(** [s.rstrip()]. *)
Fixpoint str_rstrip (s : string) : string :=
  match s with
  | EmptyString => EmptyString
  | String c s' =>
      match str_rstrip s' with
      | EmptyString => if is_space c then EmptyString else String c EmptyString
      | r => String c r
      end
  end.

(** [s.strip()]. *)
Definition str_strip (s : string) : string := str_rstrip (str_lstrip s).

(** [s.split()]: the maximal runs of characters that are not white space,
    from left to right.  [word] is the run being read, [None] between two
    runs. *)
Fixpoint str_split_from (word : option string) (s : string) : list string :=
  match s with
  | EmptyString =>
      match word with Some w => [w] | None => [] end
  | String c s' =>
      if is_space c then
        match word with
        | Some w => w :: str_split_from None s'
        | None => str_split_from None s'
        end
      else
        str_split_from
          (Some (match word with Some w => w ++ String c "" | None => String c "" end)) s'
  end.

Definition str_split (s : string) : list string := str_split_from None s.

(** [c.lower()] for one character below 256: the letters A to Z and the
    accented capitals 192 to 222, the sign 215 apart, move up by 32. *)
Definition lower_char (c : ascii) : ascii :=
  let n := Z.of_N (N_of_ascii c) in
  if ((65 <=? n) && (n <=? 90)) ||
     ((192 <=? n) && (n <=? 222) && negb (n =? 215))
  then ascii_of_N (Z.to_N (n + 32))
  else c.

(** [s.lower()]. *)
Fixpoint str_lower (s : string) : string :=
  match s with
  | EmptyString => EmptyString
  | String c s' => String (lower_char c) (str_lower s')
  end.

End Text.

(** [parse_input]: [parts[0]] raises [IndexError] when there is no part. *)
Definition parse_input (user_input : string) : result (string * list string) :=
  let parts := Text.str_split (Text.str_strip user_input) in
  match parts with
  | [] => Raise (IndexError "list index out of range")
  | part0 :: args => Ok (Text.str_lower (Text.str_strip part0), args)
  end.

(** ** One turn of the loop of [main] *)

(** What a turn does: it prints lines and goes on with the book, or it
    saves the book with [save_data], prints and leaves the loop. *)
Inductive outcome : Type :=
  | Printed (lines : list string) (st : State)
  | Finished (lines : list string) (saved : State).

(** What [add_contact] and [change_phone] print themselves, once they have
    unpacked their arguments. *)
Definition add_contact_prints (args : list string) : list string :=
  match args with
  | name :: phone :: _ => ["Adding contact: " ++ name ++ ", phone: " ++ phone]
  | _ => []
  end.

Definition change_phone_prints (args : list string) : list string :=
  match args with
  | name :: old_phone :: new_phone :: _ =>
      ["Changing phone for: " ++ name ++ ", old phone: " ++ old_phone
         ++ ", new phone: " ++ new_phone]
  | _ => []
  end.

(** [print(handler(args, book))]: an exception the handler lets through
    ends the program. *)
Definition print_handler (prints : list string) (handler : M State string)
    (st : State) : result outcome :=
  match handler st with
  | (inr msg, st') => Ok (Printed (prints ++ [msg]) st')
  | (inl e, _) => Raise e
  end.

(** The body of the loop of [main] on one line of input; [today] is what
    the clock answers during the turn.  An exception ends the program. *)
Definition main_step (today : date) (user_input : string) (st : State)
    : result outcome :=
  match parse_input user_input with
  | inl e => Raise e
  | inr (command, args) =>
      if String.eqb command "close" || String.eqb command "exit" then
        Ok (Finished ["Good bye!"] st)
      else if String.eqb command "hello" then
        Ok (Printed ["How can I help you?"] st)
      else if String.eqb command "add" then
        print_handler (add_contact_prints args) (add_contact args) st
      else if String.eqb command "change" then
        print_handler (change_phone_prints args) (change_phone args) st
      else if String.eqb command "phone" then
        print_handler [] (show_phone args) st
      else if String.eqb command "all" then
        print_handler [] (show_all args) st
      else if String.eqb command "add-birthday" then
        print_handler [] (add_birthday args) st
      else if String.eqb command "show-birthday" then
        print_handler [] (show_birthday args) st
      else if String.eqb command "birthdays" then
        print_handler [] (birthdays today args) st
      else Ok (Printed ["Invalid command."] st)
  end.

(** ** Invariants of the book *)

(** The keys of the dictionary, in its order. *)
Definition dict_keys (d : list (string * loc)) : list string := map fst d.

(** No key twice, no record under two keys, and every record under its own
    name. *)
Definition book_inv (st : State) : Prop :=
  List.NoDup (dict_keys (data st)) /\
  List.NoDup (dict_values (data st)) /\
  (forall k l, In (k, l) (data st) ->
     exists r, heap st !! l = Some r /\ name r = k).

(** Every phone of every record is one that [Phone] builds. *)
Definition phones_valid (st : State) : Prop :=
  forall r p, In r (heap st) -> In p (phones r) ->
    Phone_init (phone_value p) = Ok p.

(** [d] goes on as [d'] does: nothing removed, nothing moved. *)
Definition dict_extends (d d' : list (string * loc)) : Prop :=
  exists more, d' = (d ++ more)%list.

(** What a method can have made of a record: the same name, no phone
    that was not there and is not valid, no birthday that was not there
    and is not a date of the calendar. *)
Definition record_evolves (r r' : Record_) : Prop :=
  name r' = name r /\
  (forall p, In p (phones r') ->
     In p (phones r) \/ Phone_init (phone_value p) = Ok p) /\
  (forall b, birthday r' = Some b ->
     birthday r = Some b \/ date_valid (birthday_value b) = true).

(** What a command can have made of the book: nothing, another content of
    one record, or one more record under a name that was not there. *)
Inductive evolves : State -> State -> Prop :=
  | evolves_same (st : State) : evolves st st
  | evolves_update (st : State) (l : loc) (r r' : Record_) :
      heap st !! l = Some r -> record_evolves r r' ->
      evolves st (mkState (<[l := r']> (heap st)) (data st))
  | evolves_new (st : State) (k : string) (r' : Record_) :
      dict_get k (data st) = None -> record_evolves (Record_init k) r' ->
      evolves st (mkState (heap st ++ [r'])
                    (data st ++ [(k, length (heap st))])).

(** A sequence of commands that can change the book. *)
Inductive steps : State -> State -> Prop :=
  | steps_none (st : State) : steps st st
  | steps_more (st st1 st2 : State) :
      step st st1 -> steps st1 st2 -> steps st st2.

(** A result that [input_error] lets no exception out of: a value, or an
    exception of one of the four classes it catches. *)
Definition caught {A} (res : result A) : Prop :=
  match res with
  | inl (OverflowError _) | inl InvalidReference => False
  | _ => True
  end.

(** * Properties *)

(** ** The model at work *)

Example birthday_strict :
  Birthday_init "15.03.1990" = Ok (mkBirthday (mkdate 1990 3 15)).
Proof. reflexivity. Qed.

Example birthday_feb30 :
  Birthday_init "30.02.2024" = Raise (ValueError date_error).
Proof. reflexivity. Qed.

Example add_then_remove :
  (add_phone "0501234567";; remove_phone "0501234567") (Record_init "Alice")
  = (Ok removed_msg, Record_init "Alice").
Proof. reflexivity. Qed.

Example add_alice :
  add_contact ["Alice"; "0501234567"] AddressBook_init
  = (Ok "Contact added.",
     mkState [mkRecord "Alice" [mkPhone "0501234567"] None] [("Alice", 0%nat)]).
Proof. reflexivity. Qed.

Example add_bob_bad :
  add_contact ["Bob"; "123"] AddressBook_init
  = (Ok phone_error, mkState [mkRecord "Bob" [] None] [("Bob", 0%nat)]).
Proof. reflexivity. Qed.

Example birthdays_alice :
  (add_contact ["Alice"; "0501234567"];;
   add_birthday ["Alice"; "15.03.1990"];;
   birthdays (mkdate 2024 3 10) []) AddressBook_init
  = (Ok "Alice: 15.03.2024",
     mkState [mkRecord "Alice" [mkPhone "0501234567"]
                (Some (mkBirthday (mkdate 1990 3 15)))] [("Alice", 0%nat)]).
Proof. reflexivity. Qed.

Example birthday_year_999 :
  Birthday_init "01.01.0999" = Ok (mkBirthday (mkdate 999 1 1)) /\
  Birthday_str (mkBirthday (mkdate 999 1 1)) = "01.01.999".
Proof. split; reflexivity. Qed.

Example show_birthday_alice :
  fst ((add_contact ["Alice"; "0501234567"];;
        add_birthday ["Alice"; "15.03.1990"];;
        show_birthday ["Alice"]) AddressBook_init)
  = Ok "Alice's birthday is on 15.03.1990".
Proof. reflexivity. Qed.

Example birthdays_alice_late :
  fst ((add_contact ["Alice"; "0501234567"];;
        add_birthday ["Alice"; "15.03.1990"];;
        birthdays (mkdate 2024 3 20) []) AddressBook_init)
  = Ok "No upcoming birthdays.".
Proof. reflexivity. Qed.

(** ** Digits *)

(** Splits a bounded number into its values. *)
Ltac enumerate n :=
  destruct n as [|n|n]; try lia;
  repeat (destruct n as [n|n|]; try lia).

Section Digits.

Lemma digit_val_range (c : ascii) :
  is_digit c = true -> 0 <= digit_val c <= 9.
Proof.
  unfold is_digit, digit_val. cbv zeta.
  rewrite andb_true_iff, !Z.leb_le. lia.
Qed.

Lemma digit_char_val (c : ascii) :
  is_digit c = true -> digit_char (digit_val c) = c.
Proof.
  intros _. unfold digit_char, digit_val.
  replace (Z.of_N (N_of_ascii c) - 48 + 48) with (Z.of_N (N_of_ascii c)) by lia.
  rewrite N2Z.id. apply ascii_N_embedding.
Qed.

Lemma digit_char_is_digit (n : Z) :
  0 <= n <= 9 -> is_digit (digit_char n) = true /\ digit_val (digit_char n) = n.
Proof. intros H. enumerate n; split; reflexivity. Qed.

Lemma digit_char_inj (a b : ascii) :
  is_digit a = true -> is_digit b = true -> digit_val a = digit_val b -> a = b.
Proof.
  intros Ha Hb E. rewrite <- (digit_char_val a Ha), <- (digit_char_val b Hb).
  now rewrite E.
Qed.

End Digits.

(** ** Runs of digits *)

Section Runs.

Lemma append_assoc (a b c : string) : (a ++ b) ++ c = a ++ b ++ c.
Proof. induction a as [|x a IH]; simpl; [reflexivity | now rewrite IH]. Qed.

Lemma append_nil_r (a : string) : a ++ "" = a.
Proof. induction a as [|x a IH]; simpl; [reflexivity | now rewrite IH]. Qed.

Lemma append_length (a b : string) :
  String.length (a ++ b) = (String.length a + String.length b)%nat.
Proof. induction a as [|x a IH]; simpl; [reflexivity | now rewrite IH]. Qed.

(** Text without digits before a run is skipped. *)
Lemma findall_skip (pre s : string) :
  no_digits pre = true ->
  findall_digits_from None (pre ++ s) = findall_digits_from None s.
Proof.
  induction pre as [|c pre IH]; simpl; [reflexivity |].
  rewrite andb_true_iff, negb_true_iff. intros [Hc Hpre].
  rewrite Hc. now apply IH.
Qed.

(** A run that is being read grows until the text stops it. *)
Lemma findall_grow (run post r : string) :
  all_digits run = true -> run_stops post = true ->
  findall_digits_from (Some r) (run ++ post)
  = (r ++ run) :: findall_digits_from None post.
Proof.
  revert r. induction run as [|c run IH]; simpl; intros r Hrun Hpost.
  - rewrite append_nil_r. destruct post as [|c post]; simpl in *; [reflexivity |].
    rewrite negb_true_iff in Hpost. now rewrite Hpost.
  - rewrite andb_true_iff in Hrun. destruct Hrun as [Hc Hrun].
    rewrite Hc, (IH _ Hrun Hpost), append_assoc. reflexivity.
Qed.

(** The first item [findall] returns is the first maximal run. *)
Lemma findall_first_run (s run : string) :
  Spec.first_digit_run s run ->
  exists others, findall_digits s = run :: others.
Proof.
  intros (pre & post & -> & Hpre & Hrun & Hne & Hpost).
  unfold findall_digits. rewrite (findall_skip _ _ Hpre).
  destruct run as [|c run]; [congruence |].
  simpl in Hrun |- *. rewrite andb_true_iff in Hrun. destruct Hrun as [Hc Hrun].
  rewrite Hc, (findall_grow _ _ _ Hrun Hpost). simpl. eauto.
Qed.

(** A text has no digit at all, or it has a first maximal run. *)
Lemma first_run_exists (s : string) :
  no_digits s = true \/ exists run, Spec.first_digit_run s run.
Proof.
  induction s as [|c s IH]; [now left |].
  destruct (is_digit c) eqn:Hc.
  - right.
    assert (Hsplit : exists run post,
      s = run ++ post /\ all_digits run = true /\ run_stops post = true).
    { clear IH. induction s as [|d s IHs].
      - exists "", "". auto.
      - destruct (is_digit d) eqn:Hd.
        + destruct IHs as (run & post & -> & Hrun & Hpost).
          exists (String d run), post. simpl. rewrite Hd. auto.
        + exists "", (String d s). simpl. rewrite Hd. auto. }
    destruct Hsplit as (run & post & -> & Hrun & Hpost).
    exists (String c run), "", post. simpl. rewrite Hc. auto.
  - destruct IH as [Hno | (run & pre & post & -> & Hpre & Hrun & Hne & Hpost)].
    + left. simpl. now rewrite Hc.
    + right. exists run, (String c pre), post. simpl. rewrite Hc. auto.
Qed.

Lemma findall_no_digits (s : string) :
  no_digits s = true -> findall_digits s = [].
Proof.
  intros H. unfold findall_digits.
  rewrite <- (append_nil_r s), (findall_skip _ _ H). reflexivity.
Qed.

(** A text has at most one first maximal run. *)
Lemma first_run_unique (s run run' : string) :
  Spec.first_digit_run s run -> Spec.first_digit_run s run' -> run = run'.
Proof.
  intros H H'. destruct (findall_first_run _ _ H) as [o E].
  destruct (findall_first_run _ _ H') as [o' E']. congruence.
Qed.

End Runs.

(** ** [Phone] *)

Section PhoneFacts.

(** [Phone] either stores its argument as it is or raises the phone error. *)
Lemma Phone_init_cases (s : string) :
  Phone_init s = Ok (mkPhone s) \/ Phone_init s = Raise (ValueError phone_error).
Proof.
  unfold Phone_init. destruct (findall_digits s) as [|n0 ?]; [now right |].
  destruct (String.length n0 =? 10)%nat; auto.
Qed.

Lemma Phone_init_value (s : string) (p : Phone) :
  Phone_init s = Ok p -> p = mkPhone s.
Proof.
  destruct (Phone_init_cases s) as [E|E]; rewrite E; congruence.
Qed.

Lemma Phone_init_rule (s : string) :
  Phone_init s = Ok (mkPhone s) <-> Spec.phone_rule s.
Proof.
  split.
  - intros H. destruct (first_run_exists s) as [Hno | [run Hrun]].
    + unfold Phone_init in H. rewrite (findall_no_digits _ Hno) in H. discriminate.
    + exists run. split; [assumption |].
      destruct (findall_first_run _ _ Hrun) as [others E].
      unfold Phone_init in H. rewrite E in H.
      destruct (Nat.eqb_spec (String.length run) 10); [assumption | discriminate].
  - intros (run & Hrun & Hlen).
    destruct (findall_first_run _ _ Hrun) as [others E].
    unfold Phone_init. now rewrite E, Hlen.
Qed.

End PhoneFacts.

(** C3: [Phone(s)] succeeds if and only if the first maximal run of digits
    of [s] has exactly ten digits; on success the phone stores [s] itself
    and renders as [s]; otherwise, also when [s] has no digit, it raises
    the error "Phone number must contain 10 digits". *)
Theorem C3_phone_init_first_run (s : string) :
  ((exists p, Phone_init s = Ok p) <-> Spec.phone_rule s) /\
  (forall p, Phone_init s = Ok p -> phone_value p = s /\ Phone_str p = s) /\
  (~ Spec.phone_rule s -> Phone_init s = Raise (ValueError phone_error)).
Proof.
  split; [| split].
  - rewrite <- Phone_init_rule. split.
    + intros [p H]. now rewrite (Phone_init_value _ _ H) in H.
    + eauto.
  - intros p H. now rewrite (Phone_init_value _ _ H).
  - intros Hno. destruct (Phone_init_cases s) as [E|E]; [| assumption].
    exfalso. now apply Hno, Phone_init_rule.
Qed.

(** ** Lists of phones *)

Section PhoneLists.

Lemma Phone_eq_true (e x : Phone) : Phone_eq e (VPhone x) = true <-> e = x.
Proof.
  unfold Phone_eq, str_eq. rewrite String.eqb_eq.
  destruct e as [a], x as [b]; simpl. split; congruence.
Qed.

Lemma Phone_eq_false (e x : Phone) : Phone_eq e (VPhone x) = false <-> e <> x.
Proof. rewrite <- Phone_eq_true. destruct (Phone_eq e (VPhone x)); split; congruence. Qed.

Lemma list_contains_In (x : Phone) (l : list Phone) :
  list_contains x l = true <-> In x l.
Proof.
  unfold list_contains. rewrite existsb_exists. split.
  - intros (e & Hin & He). apply Phone_eq_true in He. now subst.
  - intros Hin. exists x. split; [assumption | now apply Phone_eq_true].
Qed.

(** Where [x] is in the list, [index] finds its first position and
    [remove] deletes the item at that position. *)
Lemma first_position (x : Phone) (l : list Phone) :
  In x l ->
  exists i : nat,
    l !! i = Some x /\
    (forall j : nat, (j < i)%nat -> l !! j <> Some x) /\
    list_index x l = Ok i /\
    list_remove x l = Ok (delete i l).
Proof.
  induction l as [|e l IH]; simpl; [tauto |].
  intros Hin. destruct (Phone_eq e (VPhone x)) eqn:He.
  - apply Phone_eq_true in He as ->. exists 0%nat.
    repeat split; try reflexivity. intros j Hj. lia.
  - apply Phone_eq_false in He. destruct Hin as [-> | Hin]; [congruence |].
    destruct (IH Hin) as (i & Hi & Hfirst & Hidx & Hrem).
    exists (S i). rewrite Hidx, Hrem. repeat split; try assumption.
    intros [|j] Hj; simpl; [congruence | apply Hfirst; lia].
Qed.

Lemma occurrences_zero (x : Phone) (l : list Phone) :
  Spec.occurrences x l = 0%nat <-> ~ In x l.
Proof.
  unfold Spec.occurrences. induction l as [|e l IH]; simpl; [tauto |].
  destruct (Phone_eq e (VPhone x)) eqn:He; simpl.
  - apply Phone_eq_true in He as ->. split; [discriminate | tauto].
  - apply Phone_eq_false in He. rewrite IH. split; [| tauto].
    intros H [E | Hin]; [congruence | tauto].
Qed.

(** Removing an item that occurs once leaves none. *)
Lemma remove_once (x : Phone) (l l' : list Phone) :
  Spec.occurrences x l = 1%nat -> list_remove x l = Ok l' -> ~ In x l'.
Proof.
  revert l'. induction l as [|e l IH]; simpl; intros l' Hocc Hrem; [discriminate |].
  unfold Spec.occurrences in Hocc. simpl in Hocc.
  destruct (Phone_eq e (VPhone x)) eqn:He.
  - simpl in Hocc. injection Hrem as <-. apply occurrences_zero.
    unfold Spec.occurrences. lia.
  - destruct (list_remove x l) as [err | r] eqn:Hr; [discriminate |].
    injection Hrem as <-. apply Phone_eq_false in He.
    intros [E | Hin]; [congruence |]. now apply (IH r).
Qed.

End PhoneLists.

(** ** [Record] *)

(** Unfolds the sequencing of a method down to its steps. *)
Ltac run_method :=
  unfold mbind, M_bind, mret, M_ret, pure, get, put, raise,
    set_phones, set_birthday; simpl.

(** C6: on a record whose phone list holds a valid number exactly once,
    [remove_phone] with that number answers "Removed successfully." the
    first time and "This user has not such number. Nothing to delete!" the
    second time, and after the two calls the number is not in the list. *)
Theorem C6_remove_phone_twice (r : Record_) (num : string) (p : Phone) :
  Phone_init num = Ok p ->
  Spec.occurrences p (phones r) = 1%nat ->
  exists r1,
    remove_phone num r = (Ok removed_msg, r1) /\
    remove_phone num r1 = (Ok nothing_to_delete_msg, r1) /\
    ~ In p (phones r1) /\ list_contains p (phones r1) = false.
Proof.
  intros Hp Hocc.
  assert (Hin : In p (phones r)).
  { destruct (list_contains p (phones r)) eqn:E; [now apply list_contains_In |].
    assert (Spec.occurrences p (phones r) = 0%nat); [| lia].
    apply occurrences_zero. rewrite <- list_contains_In. congruence. }
  destruct (first_position _ _ Hin) as (i & _ & _ & _ & Hrem).
  assert (Hgone : ~ In p (delete i (phones r))) by (eapply remove_once; eassumption).
  assert (Hnot : list_contains p (delete i (phones r)) = false).
  { destruct (list_contains p (delete i (phones r))) eqn:E; [| reflexivity].
    now apply list_contains_In in E. }
  exists (mkRecord (name r) (delete i (phones r)) (birthday r)).
  unfold remove_phone. run_method. rewrite Hp.
  apply list_contains_In in Hin. rewrite Hin, Hrem. simpl. rewrite Hnot. auto.
Qed.

Lemma C6_remove_phone_twice_witness :
  exists r1,
    remove_phone "0501234567"
      (mkRecord "Alice" [mkPhone "0509999999"; mkPhone "0501234567"] None)
    = (Ok removed_msg, r1) /\
    remove_phone "0501234567" r1 = (Ok nothing_to_delete_msg, r1) /\
    ~ In (mkPhone "0501234567") (phones r1) /\
    list_contains (mkPhone "0501234567") (phones r1) = false.
Proof.
  apply (C6_remove_phone_twice
           (mkRecord "Alice" [mkPhone "0509999999"; mkPhone "0501234567"] None)
           "0501234567" (mkPhone "0501234567")); reflexivity.
Defined.

(** C10: when both texts are valid phones and the old one is in the list,
    [edit_phone] answers "Number has changed." and puts the new phone in
    the place of the first entry equal to the old one; the other entries,
    their order, the length of the list, the name and the birthday stay as
    they were. *)
Theorem C10_edit_phone_frame (r : Record_) (old_phone new_phone : string)
    (po pn : Phone) :
  Phone_init old_phone = Ok po ->
  Phone_init new_phone = Ok pn ->
  In po (phones r) ->
  exists (i : nat) (r' : Record_),
    edit_phone old_phone new_phone r = (Ok changed_msg, r') /\
    phones r !! i = Some po /\
    (forall j : nat, (j < i)%nat -> phones r !! j <> Some po) /\
    phones r' !! i = Some pn /\
    (forall j : nat, j <> i -> phones r' !! j = phones r !! j) /\
    length (phones r') = length (phones r) /\
    name r' = name r /\ birthday r' = birthday r.
Proof.
  intros Ho Hn Hin.
  destruct (first_position _ _ Hin) as (i & Hi & Hfirst & Hidx & _).
  exists i, (mkRecord (name r) (<[i := pn]> (phones r)) (birthday r)).
  split.
  - unfold edit_phone. run_method. rewrite Ho.
    apply list_contains_In in Hin. rewrite Hin, Hn, Hidx. reflexivity.
  - simpl. repeat split; try assumption.
    + apply list_lookup_insert_eq. now apply lookup_lt_Some in Hi.
    + intros j Hj. now apply list_lookup_insert_ne.
    + apply length_insert.
Qed.

Lemma C10_edit_phone_frame_witness :
  exists (i : nat) (r' : Record_),
    let r := mkRecord "Bob" [mkPhone "1111111111"; mkPhone "1234567890";
                             mkPhone "1234567890"]
               (Some (mkBirthday (mkdate 1990 3 15))) in
    edit_phone "1234567890" "0987654321" r = (Ok changed_msg, r') /\
    phones r !! i = Some (mkPhone "1234567890") /\
    (forall j : nat, (j < i)%nat -> phones r !! j <> Some (mkPhone "1234567890")) /\
    phones r' !! i = Some (mkPhone "0987654321") /\
    (forall j : nat, j <> i -> phones r' !! j = phones r !! j) /\
    length (phones r') = length (phones r) /\
    name r' = name r /\ birthday r' = birthday r.
Proof.
  apply (C10_edit_phone_frame
           (mkRecord "Bob" [mkPhone "1111111111"; mkPhone "1234567890";
                            mkPhone "1234567890"]
              (Some (mkBirthday (mkdate 1990 3 15))))
           "1234567890" "0987654321"
           (mkPhone "1234567890") (mkPhone "0987654321")).
  - reflexivity.
  - reflexivity.
  - simpl. auto.
Defined.

(** [Birthday] either builds a birthday or raises the date error. *)
Lemma Birthday_init_cases (s : string) :
  (exists b, Birthday_init s = Ok b) \/
  Birthday_init s = Raise (ValueError date_error).
Proof.
  unfold Birthday_init, Strptime.strptime.
  destruct (Strptime.regex_match s) as [[[[d m] Y] rest]|]; [| now right].
  destruct rest; [| now right].
  unfold date_new.
  repeat match goal with |- context [if ?c then _ else _] => destruct c end;
    eauto.
Qed.

(** C9: when the text fails the validation of [Birthday], [add_birthday]
    raises the validation error and the record, its birthday included, is
    what it was; the birthday is replaced, by the validated one, only when
    the validation succeeds. *)
Theorem C9_add_birthday_validates_first (r : Record_) (s : string) :
  ((forall b, Birthday_init s <> Ok b) ->
     Record_add_birthday s r = (Raise (ValueError date_error), r)) /\
  (forall b, Birthday_init s = Ok b ->
     Record_add_birthday s r
     = (Ok tt, mkRecord (name r) (phones r) (Some b))) /\
  (forall res r', Record_add_birthday s r = (res, r') ->
     birthday r' <> birthday r ->
     exists b, Birthday_init s = Ok b /\ birthday r' = Some b).
Proof.
  unfold Record_add_birthday. run_method. repeat split.
  - intros Hfail. destruct (Birthday_init_cases s) as [[b Hb] | E].
    + now destruct (Hfail b).
    + now rewrite E.
  - intros b Hb. now rewrite Hb.
  - intros res r' Hrun Hchanged. destruct (Birthday_init s) as [e | b].
    + injection Hrun as _ <-. congruence.
    + injection Hrun as _ <-. eauto.
Qed.

Lemma C9_add_birthday_validates_first_witness :
  Record_add_birthday "29.02.2023"
    (mkRecord "Alice" [] (Some (mkBirthday (mkdate 1990 3 15))))
  = (Raise (ValueError date_error),
     mkRecord "Alice" [] (Some (mkBirthday (mkdate 1990 3 15)))).
Proof.
  apply (proj1 (C9_add_birthday_validates_first
                  (mkRecord "Alice" [] (Some (mkBirthday (mkdate 1990 3 15))))
                  "29.02.2023")).
  intros b. vm_compute. discriminate.
Defined.

(** C4, as the specification states it, fails: two valid phone texts with
    the same run of digits are different phones, and [remove_phone] with
    one does not find the other. *)
Lemma C4_counterexample :
  Phone_init "0501234567" = Ok (mkPhone "0501234567") /\
  Phone_init "+0501234567" = Ok (mkPhone "+0501234567") /\
  Spec.normalize "0501234567" = Spec.normalize "+0501234567" /\
  remove_phone "+0501234567" (mkRecord "Alice" [mkPhone "0501234567"] None)
  = (Ok nothing_to_delete_msg, mkRecord "Alice" [mkPhone "0501234567"] None).
Proof. repeat split. Qed.

(** C4, amended: phones are equal exactly when the texts they were built
    from are the same text, no normalisation taking part.  [remove_phone]
    with a valid text finds and removes the first entry built from that
    same text, and when no entry was built from that very text it removes
    nothing, whatever the digits of the entries. *)
Theorem C4_phone_equality_is_verbatim (r : Record_) (a b : string)
    (pa pb : Phone) :
  Phone_init a = Ok pa ->
  Phone_init b = Ok pb ->
  (Phone_eq pa (VPhone pb) = true <-> a = b) /\
  (In pa (phones r) -> a = b ->
     exists i : nat,
       phones r !! i = Some pa /\
       (forall j : nat, (j < i)%nat -> phones r !! j <> Some pa) /\
       remove_phone b r
       = (Ok removed_msg, mkRecord (name r) (delete i (phones r)) (birthday r))) /\
  ((forall q, In q (phones r) -> phone_value q <> b) ->
     remove_phone b r = (Ok nothing_to_delete_msg, r)).
Proof.
  intros Ha Hb.
  apply Phone_init_value in Ha as Ea. apply Phone_init_value in Hb as Eb.
  repeat split.
  - intros H. apply Phone_eq_true in H. subst. congruence.
  - intros ->. apply Phone_eq_true. congruence.
  - intros Hin ->. assert (pa = pb) as -> by congruence.
    destruct (first_position _ _ Hin) as (i & Hi & Hfirst & _ & Hrem).
    exists i. repeat split; try assumption.
    unfold remove_phone. run_method. rewrite Hb.
    apply list_contains_In in Hin. now rewrite Hin, Hrem.
  - intros Hnone. unfold remove_phone. run_method. rewrite Hb.
    destruct (list_contains pb (phones r)) eqn:E; [| reflexivity].
    apply list_contains_In in E. apply Hnone in E. subst pb. now simpl in E.
Qed.

Lemma C4_phone_equality_is_verbatim_witness :
  (Phone_eq (mkPhone "0501234567") (VPhone (mkPhone "+0501234567")) = true
   <-> "0501234567" = "+0501234567") /\
  remove_phone "+0501234567" (mkRecord "Alice" [mkPhone "0501234567"] None)
  = (Ok nothing_to_delete_msg, mkRecord "Alice" [mkPhone "0501234567"] None).
Proof.
  destruct (C4_phone_equality_is_verbatim
              (mkRecord "Alice" [mkPhone "0501234567"] None)
              "0501234567" "+0501234567"
              (mkPhone "0501234567") (mkPhone "+0501234567")
              eq_refl eq_refl) as (Heq & _ & Hnone).
  split; [exact Heq |].
  apply Hnone. simpl. intros q [<- | []]. discriminate.
Defined.

(** ** [Birthday]: what [strptime] accepts *)

Section Parse.

Import Strptime.

Lemma digit_cases (a : ascii) :
  is_digit a = true ->
  (a = "0" \/ a = "1" \/ a = "2" \/ a = "3" \/ a = "4" \/
   a = "5" \/ a = "6" \/ a = "7" \/ a = "8" \/ a = "9")%char.
Proof.
  intros H. rewrite <- (digit_char_val a H).
  pose proof (digit_val_range a H) as Hrange.
  generalize dependent (digit_val a). intros n Hrange. enumerate n; tauto.
Qed.

Lemma between_digit (lo hi a : ascii) :
  between lo hi a = true -> is_digit a = true.
Proof. unfold between. rewrite !andb_true_iff. tauto. Qed.

Lemma chr_eq (c a : ascii) : chr c a = true -> a = c.
Proof. unfold chr. apply Ascii.eqb_eq. Qed.

Lemma one_inv (p : ascii -> bool) (s txt rest : string) :
  one p s = Some (txt, rest) ->
  exists a, s = String a rest /\ txt = String a "" /\ p a = true.
Proof.
  unfold one. destruct s as [|a r]; [discriminate |].
  destruct (p a) eqn:Hp; [| discriminate]. intros [= <- <-]. eauto.
Qed.

Lemma two_inv (p q : ascii -> bool) (s txt rest : string) :
  two p q s = Some (txt, rest) ->
  exists a b, s = String a (String b rest) /\ txt = String a (String b "") /\
              p a = true /\ q b = true.
Proof.
  unfold two. destruct s as [|a [|b r]]; try discriminate.
  destruct (p a) eqn:Hp, (q b) eqn:Hq; simpl; try discriminate.
  intros [= <- <-]. eauto 6.
Qed.

Lemma first_match_inv {A} (alts : list alternative)
    (k : string -> string -> option A) (s : string) (r : A) :
  first_match alts k s = Some r ->
  exists alt txt rest, In alt alts /\ alt s = Some (txt, rest) /\ k txt rest = Some r.
Proof.
  induction alts as [|alt alts IH]; simpl; [discriminate |].
  destruct (alt s) as [[txt rest]|] eqn:Halt.
  - destruct (k txt rest) as [r'|] eqn:Hk.
    + intros [= <-]. exists alt, txt, rest. auto.
    + intros H. destruct (IH H) as (alt' & txt' & rest' & Hin & Ha & Hk').
      exists alt', txt', rest'. auto.
  - intros H. destruct (IH H) as (alt' & txt' & rest' & Hin & Ha & Hk').
    exists alt', txt', rest'. auto.
Qed.

Lemma dot_inv {A} (k : string -> option A) (s : string) (r : A) :
  dot k s = Some r -> exists s', s = String "." s' /\ k s' = Some r.
Proof.
  unfold dot. destruct s as [|c s']; [discriminate |].
  destruct (Ascii.eqb_spec c "."%char) as [-> | Hne].
  - eauto.
  - destruct c as [[] [] [] [] [] [] [] []]; try discriminate; congruence.
Qed.

(** Splits a hypothesis on a character class into the characters of the
    class. *)
Ltac class_cases H :=
  match type of H with
  | chr _ ?a = true => apply chr_eq in H; subst a
  | between _ _ ?a = true =>
      let D := fresh "D" in
      pose proof (between_digit _ _ _ H) as D;
      apply digit_cases in D;
      destruct D as [->|[->|[->|[->|[->|[->|[->|[->|[->| ->]]]]]]]]];
      try discriminate H; clear H
  | is_digit ?a = true =>
      apply digit_cases in H;
      destruct H as [->|[->|[->|[->|[->|[->|[->|[->|[->| ->]]]]]]]]]
  end.

Ltac pick_text :=
  first [ left; left; reflexivity
        | left; right; split; reflexivity
        | right; split; reflexivity ].

(** What an alternative of the day group matches is a text of a day. *)
Lemma day_alternative_inv (alt : alternative) (s txt rest : string) :
  In alt day_alternatives -> alt s = Some (txt, rest) ->
  s = txt ++ rest /\ 1 <= py_int txt <= 31 /\ Spec.day_text (py_int txt) txt.
Proof.
  simpl. intros [<-|[<-|[<-|[<-|[<-|[]]]]]] H.
  all: first [ apply two_inv in H as (a & b & -> & -> & Ha & Hb)
             | apply one_inv in H as (a & -> & -> & Ha) ].
  all: class_cases Ha; try class_cases Hb.
  all: split; [reflexivity | split; [vm_compute; split; discriminate | pick_text]].
Qed.

Lemma month_alternative_inv (alt : alternative) (s txt rest : string) :
  In alt month_alternatives -> alt s = Some (txt, rest) ->
  s = txt ++ rest /\ 1 <= py_int txt <= 12 /\ Spec.month_text (py_int txt) txt.
Proof.
  simpl. intros [<-|[<-|[<-|[]]]] H.
  all: first [ apply two_inv in H as (a & b & -> & -> & Ha & Hb)
             | apply one_inv in H as (a & -> & -> & Ha) ].
  all: class_cases Ha; try class_cases Hb.
  all: split; [reflexivity | split; [vm_compute; split; discriminate |]].
  all: first [ left; reflexivity | right; split; reflexivity ].
Qed.

Lemma py_int_digit (a : ascii) (s : string) :
  is_digit a = true -> py_int (String a s) = int_of_digits (String a s).
Proof. intros H. class_cases H; reflexivity. Qed.

Lemma int_of_two (a b : ascii) :
  int_of_digits (String a (String b "")) = 10 * digit_val a + digit_val b.
Proof. unfold int_of_digits. simpl. lia. Qed.

Lemma int_of_four (a b c d : ascii) :
  int_of_digits (String a (String b (String c (String d ""))))
  = 1000 * digit_val a + 100 * digit_val b + 10 * digit_val c + digit_val d.
Proof. unfold int_of_digits. simpl. lia. Qed.


Lemma pad4_int (a b c d : ascii) :
  is_digit a = true -> is_digit b = true ->
  is_digit c = true -> is_digit d = true ->
  pad4 (int_of_digits (String a (String b (String c (String d "")))))
  = String a (String b (String c (String d ""))).
Proof.
  intros Ha Hb Hc Hd. rewrite int_of_four. unfold pad4, pad2.
  pose proof (digit_val_range a Ha). pose proof (digit_val_range b Hb).
  pose proof (digit_val_range c Hc). pose proof (digit_val_range d Hd).
  set (n := 1000 * digit_val a + 100 * digit_val b + 10 * digit_val c + digit_val d).
  replace (n / 1000 mod 10) with (digit_val a)
    by (subst n; Z.div_mod_to_equations; lia).
  replace (n / 100 mod 10) with (digit_val b)
    by (subst n; Z.div_mod_to_equations; lia).
  replace (n / 10 mod 10) with (digit_val c)
    by (subst n; Z.div_mod_to_equations; lia).
  replace (n mod 10) with (digit_val d)
    by (subst n; Z.div_mod_to_equations; lia).
  now rewrite !digit_char_val.
Qed.

Lemma mod10_digit (n : Z) :
  is_digit (digit_char (n mod 10)) = true /\
  digit_val (digit_char (n mod 10)) = n mod 10.
Proof. apply digit_char_is_digit. pose proof (Z.mod_pos_bound n 10). lia. Qed.

(** Reading the four digits a year is printed on gives the year back. *)
Lemma int_pad4 (y : Z) :
  0 <= y <= 9999 -> int_of_digits (pad4 y) = y.
Proof.
  intros Hy. unfold pad4, pad2. rewrite int_of_four.
  rewrite !(proj2 (mod10_digit _)). Z.div_mod_to_equations. lia.
Qed.

Lemma int_pad2 (n : Z) :
  0 <= n <= 99 -> int_of_digits (pad2 n) = n.
Proof.
  intros Hn. unfold pad2. rewrite int_of_two.
  rewrite !(proj2 (mod10_digit _)). Z.div_mod_to_equations. lia.
Qed.

Lemma year_group_inv (s Y rest : string) :
  year_group s = Some (Y, rest) ->
  s = Y ++ rest /\ 0 <= py_int Y <= 9999 /\ Y = pad4 (py_int Y).
Proof.
  unfold year_group. destruct s as [|a [|b [|c [|d r]]]]; try discriminate.
  destruct (is_digit a) eqn:Ha, (is_digit b) eqn:Hb,
           (is_digit c) eqn:Hc, (is_digit d) eqn:Hd; simpl; try discriminate.
  intros [= <- <-]. rewrite (py_int_digit _ _ Ha).
  split; [reflexivity |]. split; [| now rewrite pad4_int].
  rewrite int_of_four.
  pose proof (digit_val_range a Ha). pose proof (digit_val_range b Hb).
  pose proof (digit_val_range c Hc). pose proof (digit_val_range d Hd). lia.
Qed.

Lemma year_group_pad4 (y : Z) :
  0 <= y <= 9999 ->
  year_group (pad4 y) = Some (pad4 y, "") /\ py_int (pad4 y) = y.
Proof.
  intros Hy. split.
  - unfold year_group, pad4, pad2. now rewrite !(proj1 (mod10_digit _)).
  - rewrite <- (int_pad4 y Hy) at 2. unfold pad4.
    apply py_int_digit, mod10_digit.
Qed.

(** What the regular expression matches, group by group. *)
Lemma regex_match_inv (s d m Y rest : string) :
  regex_match s = Some (d, m, Y, rest) ->
  s = d ++ "." ++ m ++ "." ++ Y ++ rest /\
  (1 <= py_int d <= 31 /\ Spec.day_text (py_int d) d) /\
  (1 <= py_int m <= 12 /\ Spec.month_text (py_int m) m) /\
  (0 <= py_int Y <= 9999 /\ Y = pad4 (py_int Y)).
Proof.
  unfold regex_match. intros H.
  apply first_match_inv in H as (alt & d' & r1 & Hd & Ed & H).
  apply dot_inv in H as (r2 & -> & H).
  apply first_match_inv in H as (alt' & m' & r3 & Hm & Em & H).
  apply dot_inv in H as (r4 & -> & H).
  destruct (year_group r4) as [[Y' rest']|] eqn:EY; [| discriminate].
  injection H as -> -> -> ->.
  apply (day_alternative_inv _ _ _ _ Hd) in Ed as (-> & Hd1 & Hd2).
  apply (month_alternative_inv _ _ _ _ Hm) in Em as (-> & Hm1 & Hm2).
  apply year_group_inv in EY as (-> & HY1 & HY2).
  repeat split; solve [assumption | lia | reflexivity].
Qed.

(** A text of a day, followed by a dot, is matched as that text. *)
Lemma day_text_matched {A} (n : Z) (dt : string)
    (k : string -> string -> option A) (r : string) :
  1 <= n <= 31 -> Spec.day_text n dt ->
  first_match day_alternatives (fun d r1 => dot (k d) r1) (dt ++ String "." r)
  = k dt r /\ py_int dt = n.
Proof.
  intros Hn Hdt. enumerate n.
  all: destruct Hdt as [[-> | [? ->]] | [? ->]]; try lia.
  all: split; [| reflexivity]; vm_compute; now destruct (k _ r).
Qed.

Lemma month_text_matched {A} (n : Z) (mt : string)
    (k : string -> string -> option A) (r : string) :
  1 <= n <= 12 -> Spec.month_text n mt ->
  first_match month_alternatives (fun m r1 => dot (k m) r1) (mt ++ String "." r)
  = k mt r /\ py_int mt = n.
Proof.
  intros Hn Hmt. enumerate n.
  all: destruct Hmt as [-> | [? ->]]; try lia.
  all: split; [| reflexivity]; vm_compute; now destruct (k _ r).
Qed.

End Parse.

Section BirthdayFacts.

Import Strptime.

Lemma date_new_ok (y m d : Z) (t : date) :
  date_new y m d = Ok t <-> t = mkdate y m d /\ date_valid t = true.
Proof.
  unfold date_new, date_valid. split.
  - repeat match goal with |- context [if ?c then _ else _] =>
      destruct c eqn:? end; try discriminate.
    intros [= <-]. simpl. split; [reflexivity |].
    repeat match goal with H : negb _ = false |- _ =>
      apply negb_false_iff, andb_true_iff in H as [? ?] end.
    repeat (apply andb_true_iff; split); assumption.
  - intros [-> H]. simpl in H. rewrite !andb_true_iff in H.
    destruct H as [[[[[-> ->] ->] ->] ->] ->]. reflexivity.
Qed.

Lemma date_valid_bounds (t : date) :
  date_valid t = true ->
  1 <= year t <= 9999 /\ 1 <= month t <= 12 /\ 1 <= day t <= 31.
Proof.
  unfold date_valid, MINYEAR, MAXYEAR. rewrite !andb_true_iff, !Z.leb_le.
  intros [[[[[? ?] ?] ?] ?] Hd].
  assert (days_in_month (year t) (month t) <= 31); [| lia].
  unfold days_in_month.
  repeat match goal with |- context [if ?c then _ else _] => destruct c end; lia.
Qed.

(** [Birthday] builds the date [t] from exactly the texts accepted for
    [t]. *)
Lemma Birthday_init_accepted (s : string) (t : date) :
  Birthday_init s = Ok (mkBirthday t) <-> Spec.accepted s t.
Proof.
  unfold Birthday_init, strptime. split.
  - destruct (regex_match s) as [[[[d m] Y] rest]|] eqn:E; [| discriminate].
    apply regex_match_inv in E as (-> & [_ Hd] & [_ Hm] & [_ HY]).
    destruct rest; [| discriminate].
    destruct (date_new (py_int Y) (py_int m) (py_int d)) as [[]|t'] eqn:En;
      try discriminate.
    intros [= ->]. apply date_new_ok in En as [-> Hv].
    split; [assumption |]. exists d, m. simpl.
    rewrite append_nil_r, <- HY. auto.
  - intros (Hv & dt & mt & Hdt & Hmt & ->).
    destruct (date_valid_bounds t Hv) as (Hy & Hm & Hd).
    unfold regex_match.
    change (dt ++ "." ++ mt ++ "." ++ pad4 (year t))
      with (dt ++ String "." (mt ++ String "." (pad4 (year t)))).
    destruct (day_text_matched (day t) dt
      (fun d r2 => first_match month_alternatives (fun m r3 =>
         dot (fun r4 => match year_group r4 with
                        | Some (Y, rest) => Some (d, m, Y, rest)
                        | None => None
                        end) r3) r2)
      (mt ++ String "." (pad4 (year t))) Hd Hdt) as [-> Ed].
    destruct (month_text_matched (month t) mt
      (fun m r4 => match year_group r4 with
                   | Some (Y, rest) => Some (dt, m, Y, rest)
                   | None => None
                   end)
      (pad4 (year t)) Hm Hmt) as [-> Em].
    destruct (year_group_pad4 (year t)) as [-> EY]; [lia |].
    rewrite Ed, Em, EY.
    rewrite (proj2 (date_new_ok (year t) (month t) (day t) t)); [reflexivity |].
    split; [now destruct t | assumption].
Qed.

(** From the year 1000 on the year is printed on four digits. *)
Lemma year_text_pad4 (y : Z) : 1000 <= y -> year_text y = pad4 y.
Proof.
  intros Hy. unfold year_text.
  destruct (Z.ltb_spec y 10); [lia |]. destruct (Z.ltb_spec y 100); [lia |].
  destruct (Z.ltb_spec y 1000); [lia | reflexivity].
Qed.


Lemma strftime_padded (t : date) :
  1000 <= year t ->
  date_strftime t = pad2 (day t) ++ "." ++ pad2 (month t) ++ "." ++ pad4 (year t).
Proof. intros Hy. unfold date_strftime. now rewrite year_text_pad4. Qed.

(** A date from the year 1000 on is printed in the strict shape, as a text
    that writes it. *)
Lemma strftime_strict (t : date) :
  date_valid t = true -> 1000 <= year t ->
  Spec.strict_birthday (date_strftime t) = true /\
  Spec.strict_date (date_strftime t) = t.
Proof.
  intros Hv Hy. destruct (date_valid_bounds t Hv) as (Hyear & Hm & Hd).
  rewrite (strftime_padded t Hy).
  assert (E : Spec.strict_date
                (pad2 (day t) ++ "." ++ pad2 (month t) ++ "." ++ pad4 (year t)) = t).
  { unfold Spec.strict_date.
    replace (substring 6 4 _) with (pad4 (year t)) by reflexivity.
    replace (substring 3 2 _) with (pad2 (month t)) by reflexivity.
    replace (substring 0 2 _) with (pad2 (day t)) by reflexivity.
    rewrite int_pad4, !int_pad2 by lia. now destruct t. }
  split; [| exact E].
  unfold Spec.strict_birthday. apply andb_true_iff. split.
  - unfold pad4, pad2. simpl. now rewrite !(proj1 (mod10_digit _)).
  - now rewrite E.
Qed.




End BirthdayFacts.




(** ** Upcoming birthdays *)

Arguments date_add_days : simpl never.
Arguments date_replace_year : simpl never.
Arguments date_le : simpl never.
Arguments date_strftime : simpl never.

Section Upcoming.

Variables today last_day : date.
Hypothesis today_valid : date_valid today = true.
Hypothesis window_end : date_add_days today 7 = Ok last_day.

Lemma valid_fields (t : date) :
  date_valid t = true ->
  1 <= year t <= 9999 /\ 1 <= month t <= 12 /\
  1 <= day t <= days_in_month (year t) (month t).
Proof.
  unfold date_valid, MINYEAR, MAXYEAR. rewrite !andb_true_iff, !Z.leb_le. tauto.
Qed.

(** Only February has a length that depends on the year. *)
Lemma days_in_month_year (y y' m d : Z) :
  1 <= d <= days_in_month y m ->
  ((m =? 2) && (d =? 29) = true -> is_leap y' = true) ->
  1 <= d <= days_in_month y' m.
Proof.
  unfold days_in_month. intros Hd Hleap.
  destruct (Z.eqb_spec m 2) as [-> | Hm]; [| assumption].
  destruct (is_leap y'); [destruct (is_leap y); lia |].
  destruct (Z.eqb_spec d 29) as [-> | Hd29]; [now discriminate Hleap |].
  destruct (is_leap y); lia.
Qed.

Lemma replace_year_ok (b : Birthday) :
  date_valid (birthday_value b) = true ->
  (Spec.on_feb_29 b = true -> is_leap (year today) = true) ->
  date_replace_year (birthday_value b) (year today) = Ok (Spec.remapped today b).
Proof.
  intros Hb Hleap. apply date_new_ok. split; [reflexivity |].
  destruct (valid_fields _ today_valid) as (Hy & _ & _).
  destruct (valid_fields _ Hb) as (_ & Hm & Hd).
  pose proof (days_in_month_year _ (year today) _ _ Hd Hleap).
  unfold date_valid, Spec.remapped, MINYEAR, MAXYEAR. simpl.
  rewrite !andb_true_iff, !Z.leb_le. lia.
Qed.

Lemma replace_year_feb_29 (b : Birthday) :
  Spec.on_feb_29 b = true -> is_leap (year today) = false ->
  date_replace_year (birthday_value b) (year today) = Raise (ValueError day_error).
Proof.
  unfold Spec.on_feb_29. rewrite andb_true_iff, !Z.eqb_eq. intros [Hm Hd] Hleap.
  destruct (valid_fields _ today_valid) as (Hy & _ & _).
  unfold date_replace_year, date_new, days_in_month, MINYEAR, MAXYEAR.
  rewrite Hm, Hd, Hleap. simpl.
  destruct (Z.leb_spec 1 (year today)), (Z.leb_spec (year today) 9999);
    try lia. reflexivity.
Qed.

Lemma replace_year_cases (b : Birthday) :
  date_valid (birthday_value b) = true ->
  date_replace_year (birthday_value b) (year today) = Ok (Spec.remapped today b) \/
  date_replace_year (birthday_value b) (year today) = Raise (ValueError day_error).
Proof.
  intros Hb. destruct (Spec.on_feb_29 b) eqn:Hf;
    [destruct (is_leap (year today)) eqn:Hl |].
  - left. now apply replace_year_ok.
  - right. now apply replace_year_feb_29.
  - left. apply replace_year_ok; [assumption | congruence].
Qed.

Ltac run_loop :=
  unfold mbind, M_bind, mret, M_ret, pure, deref; simpl.

(** One turn of the loop on a record whose birthday can be moved to the
    year of [today]. *)
Lemma upcoming_loop_step (st : State) (l : loc) (ls : list loc) (r : Record_)
    (acc : list string) :
  heap st !! l = Some r ->
  (forall b, birthday r = Some b ->
     date_replace_year (birthday_value b) (year today) = Ok (Spec.remapped today b)) ->
  AddressBook.upcoming_loop today (l :: ls) acc st
  = AddressBook.upcoming_loop today ls
      (acc ++ match Spec.upcoming_line today last_day r with
              | Some line => [line]
              | None => []
              end) st.
Proof.
  intros Hl Hr. simpl. run_loop. rewrite Hl.
  unfold Spec.upcoming_line, Spec.in_window.
  destruct (birthday r) as [b|]; [| now rewrite app_nil_r].
  rewrite (Hr b eq_refl). destruct (date_le today (Spec.remapped today b)); simpl.
  - rewrite window_end. destruct (date_le (Spec.remapped today b) last_day);
      [reflexivity | now rewrite app_nil_r].
  - now rewrite app_nil_r.
Qed.

(** The loop over records that can all be moved to the year of [today]. *)
Lemma upcoming_loop_ok (st : State) (ls : list loc) (acc : list string) :
  (forall l, In l ls -> is_Some (heap st !! l)) ->
  (forall l r b, In l ls -> heap st !! l = Some r -> birthday r = Some b ->
     date_replace_year (birthday_value b) (year today) = Ok (Spec.remapped today b)) ->
  AddressBook.upcoming_loop today ls acc st
  = (Ok (acc ++ omap (Spec.upcoming_line today last_day)
                  (omap (fun l => heap st !! l) ls))%list, st).
Proof.
  revert acc. induction ls as [|l ls IH]; intros acc Hheap Hdates.
  - simpl. now rewrite app_nil_r.
  - destruct (Hheap l (or_introl eq_refl)) as [r Hl].
    rewrite (upcoming_loop_step st l ls r acc Hl).
    + rewrite IH.
      * simpl. rewrite Hl. simpl.
        destruct (Spec.upcoming_line today last_day r);
          now rewrite <- app_assoc.
      * intros; apply Hheap; now right.
      * intros l' r' b' Hin. apply Hdates. now right.
    + intros b Hb. apply (Hdates l r b); [now left | assumption..].
Qed.

(** The loop over records of which one has a birthday on 29 February,
    when the year of [today] has no such day. *)
Lemma upcoming_loop_feb_29 (st : State) (ls : list loc) (acc : list string)
    (l0 : loc) (r0 : Record_) (b0 : Birthday) :
  (forall l, In l ls -> is_Some (heap st !! l)) ->
  (forall r b, In r (heap st) -> birthday r = Some b ->
     date_valid (birthday_value b) = true) ->
  In l0 ls -> heap st !! l0 = Some r0 -> birthday r0 = Some b0 ->
  Spec.on_feb_29 b0 = true -> is_leap (year today) = false ->
  AddressBook.upcoming_loop today ls acc st = (Raise (ValueError day_error), st).
Proof.
  intros Hheap Hvalid Hin Hl0 Hb0 Hfeb Hleap. revert acc.
  induction ls as [|l ls IH]; intros acc; [destruct Hin |].
  destruct (Hheap l (or_introl eq_refl)) as [r Hl].
  assert (Hrest : forall l', In l' ls -> is_Some (heap st !! l'))
    by (intros; apply Hheap; now right).
  destruct (birthday r) as [b|] eqn:Hb.
  - assert (Hv : date_valid (birthday_value b) = true).
    { apply (Hvalid r b); [| assumption].
      apply list_elem_of_In. eapply list_elem_of_lookup_2. eassumption. }
    destruct (replace_year_cases b Hv) as [E | E].
    + rewrite (upcoming_loop_step st l ls r acc Hl).
      * destruct Hin as [-> | Hin]; [| now apply IH].
        rewrite Hl0 in Hl. injection Hl as <-. rewrite Hb0 in Hb.
        injection Hb as <-. rewrite (replace_year_feb_29 b0 Hfeb Hleap) in E.
        discriminate.
      * intros b' Hb'. congruence.
    + simpl. run_loop. now rewrite Hl, Hb, E.
  - rewrite (upcoming_loop_step st l ls r acc Hl) by congruence.
    destruct Hin as [-> | Hin]; [congruence | now apply IH].
Qed.

End Upcoming.

Section Books.

Lemma records_of_In (st : State) (r : Record_) :
  In r (records_of st) <->
  exists l, In l (dict_values (data st)) /\ heap st !! l = Some r.
Proof.
  unfold records_of. rewrite <- list_elem_of_In, list_elem_of_omap.
  split; intros (l & Hl & Hr); exists l; [rewrite <- list_elem_of_In | rewrite list_elem_of_In];
    auto.
Qed.

Lemma heap_In (st : State) (l : loc) (r : Record_) :
  heap st !! l = Some r -> In r (heap st).
Proof. intros H. apply list_elem_of_In. eapply list_elem_of_lookup_2, H. Qed.

(** Before [today] in the year means outside the window. *)
Lemma before_today (today last_day : date) (r : Record_) (b : Birthday) :
  birthday r = Some b ->
  month (birthday_value b) < month today \/
  (month (birthday_value b) = month today /\ day (birthday_value b) < day today) ->
  Spec.upcoming_line today last_day r = None.
Proof.
  intros Hb Hbefore. unfold Spec.upcoming_line, Spec.in_window. rewrite Hb.
  replace (date_le today (Spec.remapped today b)) with false; [reflexivity |].
  symmetry. unfold date_le, Spec.remapped. simpl.
  rewrite Z.ltb_irrefl, Z.eqb_refl. simpl.
  apply orb_false_iff. split; [apply Z.ltb_ge; lia |].
  apply andb_false_iff. destruct Hbefore as [H | [H1 H2]].
  - left. apply Z.eqb_neq. lia.
  - right. apply Z.leb_gt. lia.
Qed.

End Books.

(** C5, as the specification states it, fails: with a birthday on
    29 February in the book and a year of [today] that is not a leap year,
    no list comes out, so a record whose birthday lies in the window is not
    in it.  The book is the one the handlers build from the empty book. *)
Lemma C5_counterexample :
  let alice := mkRecord "Alice" [mkPhone "0501234567"]
                 (Some (mkBirthday (mkdate 2000 2 29))) in
  let bob := mkRecord "Bob" [mkPhone "0509999999"]
               (Some (mkBirthday (mkdate 1990 3 12))) in
  let st := mkState [alice; bob] [("Alice", 0%nat); ("Bob", 1%nat)] in
  let today := mkdate 2023 3 10 in
  let last_day := mkdate 2023 3 17 in
  (add_contact ["Alice"; "0501234567"];;
   add_birthday ["Alice"; "29.02.2000"];;
   add_contact ["Bob"; "0509999999"];;
   add_birthday ["Bob"; "12.03.1990"]) AddressBook_init
  = (Ok "Birthday was added.", st) /\
  date_add_days today 7 = Ok last_day /\
  Spec.upcoming_line today last_day bob = Some "Bob: 12.03.2023" /\
  AddressBook.get_upcoming_birthdays today st = (Raise (ValueError day_error), st) /\
  ~ exists result, AddressBook.get_upcoming_birthdays today st = (Ok result, st).
Proof.
  cbv zeta. repeat split. intros [result H]. vm_compute in H. discriminate.
Qed.

(** C5, amended: when every birthday of the book can be moved to the year
    of [today] (none is on 29 February unless that year is a leap year) and
    the day seven days after [today] exists, [get_upcoming_birthdays]
    returns, in the order of the book, one line "name: DD.MM.YYYY" for
    each record that has a birthday whose month and day, put in the year of
    [today], lie from [today] to seven days later, both included, and no
    line for any other record; the line shows the date in the year of
    [today].  A birthday earlier in the year than [today] gets no line, so
    one in January is not found from December. *)
Theorem C5_upcoming_birthdays_window (st : State) (today last_day : date) :
  wf_state st ->
  date_valid today = true ->
  date_add_days today 7 = Ok last_day ->
  (forall r b, In r (records_of st) -> birthday r = Some b ->
     Spec.on_feb_29 b = true -> is_leap (year today) = true) ->
  exists result,
    AddressBook.get_upcoming_birthdays today st = (Ok result, st) /\
    result = omap (Spec.upcoming_line today last_day) (records_of st) /\
    (forall line, In line result <->
       exists r b, In r (records_of st) /\ birthday r = Some b /\
         Spec.in_window today last_day b = true /\
         line = name r ++ ": " ++ date_strftime (Spec.remapped today b)) /\
    (forall r b, birthday r = Some b ->
       month (birthday_value b) < month today \/
       (month (birthday_value b) = month today /\
        day (birthday_value b) < day today) ->
       Spec.upcoming_line today last_day r = None).
Proof.
  intros [Hrefs Hdates] Htoday Hlast Hfeb.
  exists (omap (Spec.upcoming_line today last_day) (records_of st)).
  split; [| split; [reflexivity | split]].
  - unfold AddressBook.get_upcoming_birthdays, mbind, M_bind, get.
    rewrite (upcoming_loop_ok today last_day Hlast st); [reflexivity | exact Hrefs |].
    intros l r b Hl Hr Hb. apply replace_year_ok; [assumption | |].
    + apply (Hdates r b); [now apply (heap_In st l) | assumption].
    + apply (Hfeb r b); [| assumption]. apply records_of_In. eauto.
  - intros line. rewrite <- list_elem_of_In, list_elem_of_omap. split.
    + intros (r & Hr & Hline). apply list_elem_of_In in Hr.
      unfold Spec.upcoming_line in Hline.
      destruct (birthday r) as [b|] eqn:Hb; [| discriminate].
      destruct (Spec.in_window today last_day b) eqn:Hw; [| discriminate].
      injection Hline as <-. exists r, b. auto.
    + intros (r & b & Hr & Hb & Hw & ->). exists r.
      split; [now apply list_elem_of_In |].
      unfold Spec.upcoming_line. now rewrite Hb, Hw.
  - intros r b. apply before_today.
Qed.

Lemma C5_upcoming_birthdays_window_witness :
  let st := mkState [mkRecord "Alice" [mkPhone "0501234567"]
                       (Some (mkBirthday (mkdate 1990 3 15)));
                     mkRecord "Bob" [] (Some (mkBirthday (mkdate 1985 1 2)))]
              [("Alice", 0%nat); ("Bob", 1%nat)] in
  exists result,
    AddressBook.get_upcoming_birthdays (mkdate 2024 3 10) st = (Ok result, st) /\
    result = ["Alice: 15.03.2024"].
Proof.
  cbv zeta.
  destruct (C5_upcoming_birthdays_window
    (mkState [mkRecord "Alice" [mkPhone "0501234567"]
                (Some (mkBirthday (mkdate 1990 3 15)));
              mkRecord "Bob" [] (Some (mkBirthday (mkdate 1985 1 2)))]
       [("Alice", 0%nat); ("Bob", 1%nat)])
    (mkdate 2024 3 10) (mkdate 2024 3 17)) as (result & Hrun & Hres & _).
  - split.
    + simpl. intros l [<- | [<- | []]]; simpl; eauto.
    + simpl. intros r b [<- | [<- | []]] [= <-]; reflexivity.
  - reflexivity.
  - reflexivity.
  - intros r b _ _ _. reflexivity.
  - exists result. split; [exact Hrun | exact Hres].
Defined.

(** C8, as stated for every year of [today] that is not a leap year,
    fails in the last days of the year 9999: a record before the one of
    29 February, with its birthday on [today] or later, makes the loop
    compute the day seven days after [today], which raises
    [OverflowError]; the loop never moves the birthday of 29 February, and
    [birthdays] returns no message.  The book is the one the handlers
    build from the empty book. *)
Lemma C8_counterexample :
  let alice := mkRecord "Alice" [mkPhone "0501234567"]
                 (Some (mkBirthday (mkdate 1990 12 31))) in
  let bob := mkRecord "Bob" [mkPhone "0509999999"]
               (Some (mkBirthday (mkdate 2000 2 29))) in
  let st := mkState [alice; bob] [("Alice", 0%nat); ("Bob", 1%nat)] in
  let today := mkdate 9999 12 28 in
  (add_contact ["Alice"; "0501234567"];;
   add_birthday ["Alice"; "31.12.1990"];;
   add_contact ["Bob"; "0509999999"];;
   add_birthday ["Bob"; "29.02.2000"]) AddressBook_init
  = (Ok "Birthday was added.", st) /\
  date_valid today = true /\ is_leap (year today) = false /\
  In bob (records_of st) /\
  Spec.on_feb_29 (mkBirthday (mkdate 2000 2 29)) = true /\
  AddressBook.get_upcoming_birthdays today st
  = (Raise (OverflowError "date value out of range"), st) /\
  birthdays today [] st = (Raise (OverflowError "date value out of range"), st) /\
  ~ exists msg, birthdays today [] st = (Ok msg, st).
Proof.
  cbv zeta. repeat split.
  - simpl. auto.
  - intros [msg H]. vm_compute in H. discriminate.
Qed.

(** C8, amended: when a record of the book has its birthday on 29 February,
    the year of [today] is not a leap year and the day seven days after
    [today] exists, [get_upcoming_birthdays] raises the [ValueError] of
    moving that birthday to the year of [today], and the [birthdays]
    handler returns the message of that exception, not a list of lines. *)
Theorem C8_feb_29_raises (st : State) (today last_day : date)
    (r : Record_) (b : Birthday) (args : list string) :
  wf_state st ->
  date_valid today = true ->
  date_add_days today 7 = Ok last_day ->
  In r (records_of st) ->
  birthday r = Some b ->
  Spec.on_feb_29 b = true ->
  is_leap (year today) = false ->
  date_replace_year (birthday_value b) (year today) = Raise (ValueError day_error) /\
  AddressBook.get_upcoming_birthdays today st = (Raise (ValueError day_error), st) /\
  birthdays today args st = (Ok day_error, st).
Proof.
  intros [Hrefs Hdates] Htoday Hlast Hr Hb Hfeb Hleap.
  apply records_of_In in Hr as (l & Hl & Hlr).
  assert (Hraise : AddressBook.get_upcoming_birthdays today st
                   = (Raise (ValueError day_error), st)).
  { unfold AddressBook.get_upcoming_birthdays, mbind, M_bind, get.
    exact (upcoming_loop_feb_29 today last_day Htoday Hlast st _ [] l r b
             Hrefs Hdates Hl Hlr Hb Hfeb Hleap). }
  split; [now apply replace_year_feb_29 |]. split; [exact Hraise |].
  unfold birthdays, input_error, birthdays_func, mbind, M_bind.
  now rewrite Hraise.
Qed.

Lemma C8_feb_29_raises_witness :
  let st := mkState [mkRecord "Alice" [] (Some (mkBirthday (mkdate 2000 2 29)))]
              [("Alice", 0%nat)] in
  AddressBook.get_upcoming_birthdays (mkdate 2023 2 25) st
  = (Raise (ValueError day_error), st) /\
  birthdays (mkdate 2023 2 25) [] st = (Ok day_error, st).
Proof.
  cbv zeta.
  apply (C8_feb_29_raises
    (mkState [mkRecord "Alice" [] (Some (mkBirthday (mkdate 2000 2 29)))]
       [("Alice", 0%nat)])
    (mkdate 2023 2 25) (mkdate 2023 3 4)
    (mkRecord "Alice" [] (Some (mkBirthday (mkdate 2000 2 29))))
    (mkBirthday (mkdate 2000 2 29)) []).
  - split.
    + simpl. intros l [<- | []]; simpl; eauto.
    + simpl. intros r b [<- | []] [= <-]; reflexivity.
  - reflexivity.
  - reflexivity.
  - simpl. auto.
  - reflexivity.
  - reflexivity.
  - reflexivity.
Defined.

(** C7: on the empty book, "add Alice 0501234567" creates a record for
    Alice whose phones are that one number; "add Alice 0509999999" then
    changes that same record, whose phones are the two numbers in the order
    they were added, and the book still holds one record. *)
Theorem C7_add_alice_twice :
  exists (l : loc) (st1 st2 : State) (r1 r2 : Record_),
    add_contact ["Alice"; "0501234567"] AddressBook_init
    = (Ok "Contact added.", st1) /\
    data st1 = [("Alice", l)] /\ heap st1 !! l = Some r1 /\
    name r1 = "Alice" /\ map Phone_str (phones r1) = ["0501234567"] /\
    add_contact ["Alice"; "0509999999"] st1 = (Ok "Contact updated.", st2) /\
    data st2 = [("Alice", l)] /\ heap st2 !! l = Some r2 /\
    name r2 = "Alice" /\
    map Phone_str (phones r2) = ["0501234567"; "0509999999"] /\
    length (heap st2) = 1%nat /\ records_of st2 = [r2].
Proof.
  exists 0%nat,
    (mkState [mkRecord "Alice" [mkPhone "0501234567"] None] [("Alice", 0%nat)]),
    (mkState [mkRecord "Alice" [mkPhone "0501234567"; mkPhone "0509999999"] None]
       [("Alice", 0%nat)]),
    (mkRecord "Alice" [mkPhone "0501234567"] None),
    (mkRecord "Alice" [mkPhone "0501234567"; mkPhone "0509999999"] None).
  repeat split.
Qed.

(** C1 fails on the code: "add Bob 123" on the empty book is rejected with
    the phone error, and yet the book holds a record for Bob afterwards, a
    record without phones. *)
Theorem C1_rejected_add_leaves_record :
  exists st l,
    add_contact ["Bob"; "123"] AddressBook_init = (Ok phone_error, st) /\
    AddressBook.find "Bob" AddressBook_init = (Ok None, AddressBook_init) /\
    AddressBook.find "Bob" st = (Ok (Some l), st) /\
    heap st !! l = Some (mkRecord "Bob" [] None) /\
    st <> AddressBook_init.
Proof.
  exists (mkState [mkRecord "Bob" [] None] [("Bob", 0%nat)]), 0%nat.
  repeat split. discriminate.
Qed.

(** ** What a rejected command leaves behind

    Apart from [add_contact] with a name that is new, every path of every
    handler validates before it changes anything. *)

Section Rejected.

Lemma state_eta (st : State) : mkState (heap st) (data st) = st.
Proof. now destruct st. Qed.

(** A method that leaves its object as it was leaves the state as it
    was. *)
Lemma call_unchanged {A} (l : loc) (method : M Record_ A) (st : State) :
  (forall r, heap st !! l = Some r -> snd (method r) = r) ->
  snd (call l method st) = st.
Proof.
  intros H. unfold call. destruct (heap st !! l) as [r|] eqn:Hl; [| reflexivity].
  specialize (H r eq_refl). destruct (method r) as [res r']. simpl in *. subst r'.
  now rewrite list_insert_id, state_eta.
Qed.

Lemma add_phone_rejected (phone : string) (r : Record_) :
  fst (add_phone phone r) <> Ok true -> snd (add_phone phone r) = r.
Proof.
  unfold add_phone. run_method. destruct (Phone_init phone); simpl; congruence.
Qed.

Lemma edit_phone_rejected (old_phone new_phone : string) (r : Record_) :
  fst (edit_phone old_phone new_phone r) <> Ok changed_msg ->
  snd (edit_phone old_phone new_phone r) = r.
Proof.
  unfold edit_phone. run_method.
  destruct (Phone_init old_phone) as [e | po]; [reflexivity |].
  destruct (list_contains po (phones r)); [| reflexivity].
  destruct (Phone_init new_phone) as [e | pn]; [reflexivity |].
  destruct (list_index po (phones r)); simpl; congruence.
Qed.

Lemma Record_add_birthday_rejected (s : string) (r : Record_) :
  fst (Record_add_birthday s r) <> Ok tt -> snd (Record_add_birthday s r) = r.
Proof.
  unfold Record_add_birthday. run_method.
  destruct (Birthday_init s); simpl; congruence.
Qed.

Ltac run_handler :=
  unfold input_error, mbind, M_bind, mret, M_ret, raise, AddressBook.find; simpl.

(** [add_contact] for a name the book has: rejected means unchanged. *)
Lemma add_contact_known_rejected (name phone : string) (rest : list string)
    (st : State) (l : loc) :
  dict_get name (data st) = Some l ->
  fst (add_contact (name :: phone :: rest) st) <> Ok "Contact updated." ->
  snd (add_contact (name :: phone :: rest) st) = st.
Proof.
  intros Hfind. unfold add_contact, add_contact_func. run_handler.
  rewrite Hfind. unfold call.
  destruct (heap st !! l) as [r|] eqn:Hl; [| reflexivity].
  pose proof (add_phone_rejected phone r) as Hrej.
  destruct (add_phone phone r) as [[e | ok] r']; simpl in *.
  - rewrite Hrej by discriminate. intros _.
    rewrite list_insert_id by assumption.
    destruct e; simpl; now rewrite ?state_eta.
  - congruence.
Qed.

(** [add_birthday]: rejected means unchanged. *)
Lemma add_birthday_rejected (args : list string) (st : State) :
  fst (add_birthday args st) <> Ok "Birthday was added." ->
  snd (add_birthday args st) = st.
Proof.
  unfold add_birthday, add_birthday_func.
  destruct args as [|name [|s rest]]; try reflexivity. run_handler.
  destruct (dict_get name (data st)) as [l|]; [| reflexivity]. unfold call.
  destruct (heap st !! l) as [r|] eqn:Hl; [| reflexivity].
  pose proof (Record_add_birthday_rejected s r) as Hrej.
  destruct (Record_add_birthday s r) as [[e | ok] r']; simpl in *.
  - rewrite Hrej by discriminate. intros _.
    rewrite list_insert_id by assumption.
    destruct e; simpl; now rewrite ?state_eta.
  - congruence.
Qed.

(** [change_phone]: rejected means unchanged. *)
Lemma change_phone_rejected (args : list string) (st : State) :
  fst (change_phone args st) <> Ok changed_msg ->
  snd (change_phone args st) = st.
Proof.
  unfold change_phone, change_phone_func.
  destruct args as [|name [|old_phone [|new_phone rest]]]; try reflexivity.
  run_handler.
  destruct (dict_get name (data st)) as [l|]; [| reflexivity]. unfold call.
  destruct (heap st !! l) as [r|] eqn:Hl; [| reflexivity].
  pose proof (edit_phone_rejected old_phone new_phone r) as Hrej.
  destruct (edit_phone old_phone new_phone r) as [[e | msg] r']; simpl in *.
  - rewrite Hrej by discriminate. intros _.
    rewrite list_insert_id by assumption.
    destruct e; simpl; now rewrite ?state_eta.
  - intros Hmsg. rewrite Hrej by assumption.
    now rewrite list_insert_id, state_eta.
Qed.

(** The handlers that only read. *)
Lemma show_birthday_reads (args : list string) (st : State) :
  snd (show_birthday args st) = st.
Proof.
  unfold show_birthday, show_birthday_func.
  destruct args as [|name rest]; [reflexivity |]. run_handler.
  destruct (dict_get name (data st)) as [l|]; [| reflexivity]. unfold deref.
  destruct (heap st !! l) as [r|]; [| reflexivity].
  now destruct (birthday r).
Qed.

Lemma show_phone_reads (args : list string) (st : State) :
  snd (show_phone args st) = st.
Proof.
  unfold show_phone, show_phone_func.
  destruct args as [|name rest]; [reflexivity |]. run_handler.
  destruct (dict_get name (data st)) as [l|]; [| reflexivity]. unfold deref.
  now destruct (heap st !! l) as [r|].
Qed.

Lemma upcoming_loop_reads (today : date) (ls : list loc) (acc : list string)
    (st : State) :
  snd (AddressBook.upcoming_loop today ls acc st) = st.
Proof.
  revert acc. induction ls as [|l ls IH]; intros acc; [reflexivity |].
  simpl. unfold mbind, M_bind, mret, M_ret, pure, deref.
  destruct (heap st !! l) as [r|]; [| reflexivity].
  destruct (birthday r) as [b|]; [| apply IH].
  destruct (date_replace_year (birthday_value b) (year today)) as [e | t];
    [reflexivity |].
  destruct (date_le today t); [| apply IH].
  destruct (date_add_days today 7) as [e | last_day]; [reflexivity |].
  destruct (date_le t last_day); apply IH.
Qed.

Lemma birthdays_reads (today : date) (args : list string) (st : State) :
  snd (birthdays today args st) = st.
Proof.
  unfold birthdays, birthdays_func, AddressBook.get_upcoming_birthdays.
  unfold input_error, mbind, M_bind, mret, M_ret, get.
  pose proof (upcoming_loop_reads today (dict_values (data st)) [] st) as H.
  destruct (AddressBook.upcoming_loop today (dict_values (data st)) [] st)
    as [[e | lines] st']; simpl in H; subst st'.
  - now destruct e.
  - now destruct lines.
Qed.

Lemma str_all_reads (ls : list loc) (st : State) : snd (str_all ls st) = st.
Proof.
  induction ls as [|l ls IH]; [reflexivity |].
  simpl. unfold mbind, M_bind, mret, M_ret, deref.
  destruct (heap st !! l) as [r|]; [| reflexivity].
  destruct (str_all ls st) as [[e | lines] st']; simpl in *; now subst.
Qed.

Lemma show_all_reads (args : list string) (st : State) :
  snd (show_all args st) = st.
Proof.
  unfold show_all, show_all_func, input_error, mbind, M_bind, mret, M_ret, get.
  destruct (data st) as [|kv d] eqn:Hd; [reflexivity |]. rewrite <- Hd.
  pose proof (str_all_reads (dict_values (data st)) st) as H.
  destruct (str_all (dict_values (data st)) st) as [[e | lines] st'];
    simpl in H; subst st'; [now destruct e | reflexivity].
Qed.

End Rejected.

(** ** Reachable states are well formed *)

Section WellFormed.

Lemma wf_init : wf_state AddressBook_init.
Proof. split; simpl; intros; tauto. Qed.

Lemma Birthday_init_valid (s : string) (b : Birthday) :
  Birthday_init s = Ok b -> date_valid (birthday_value b) = true.
Proof. destruct b as [t]. intros H. now apply Birthday_init_accepted in H as [Hv _]. Qed.

Lemma input_error_state (func : M State string) (st : State) :
  snd (input_error func st) = snd (func st).
Proof.
  unfold input_error. destruct (func st) as [[e | msg] st']; [| reflexivity].
  now destruct e.
Qed.

(** A method that keeps the birthday of its object, or sets a date of the
    calendar, keeps the state well formed. *)
Lemma call_wf {A} (l : loc) (method : M Record_ A) (st : State) :
  wf_state st ->
  (forall r b, birthday (snd (method r)) = Some b ->
     birthday r = Some b \/ date_valid (birthday_value b) = true) ->
  wf_state (snd (call l method st)).
Proof.
  intros [Hrefs Hdates] Hm. unfold call.
  destruct (heap st !! l) as [r|] eqn:Hl; [| now split].
  specialize (Hm r). destruct (method r) as [res r']. simpl in *. split; simpl.
  - intros l' Hl'. apply lookup_lt_is_Some. rewrite length_insert.
    apply lookup_lt_is_Some. now apply Hrefs.
  - intros r0 b Hin Hb. apply list_elem_of_In, list_elem_of_lookup in Hin as [i Hi].
    destruct (decide (i = l)) as [-> | Hne].
    + rewrite list_lookup_insert_eq in Hi by (now apply lookup_lt_Some in Hl).
      injection Hi as <-. destruct (Hm b Hb) as [Hold | Hv]; [| assumption].
      apply (Hdates r b); [now apply (heap_In st l) | assumption].
    + rewrite list_lookup_insert_ne in Hi by congruence.
      apply (Hdates r0 b); [now apply (heap_In st i) | assumption].
Qed.

Lemma add_phone_birthday (phone : string) (r : Record_) :
  birthday (snd (add_phone phone r)) = birthday r.
Proof. unfold add_phone. run_method. now destruct (Phone_init phone). Qed.

Lemma edit_phone_birthday (old_phone new_phone : string) (r : Record_) :
  birthday (snd (edit_phone old_phone new_phone r)) = birthday r.
Proof.
  unfold edit_phone. run_method.
  destruct (Phone_init old_phone) as [e | po]; [reflexivity |].
  destruct (list_contains po (phones r)); [| reflexivity].
  destruct (Phone_init new_phone) as [e | pn]; [reflexivity |].
  now destruct (list_index po (phones r)).
Qed.

Lemma dict_set_values (k : string) (v l : loc) (d : list (string * loc)) :
  In l (dict_values (dict_set k v d)) -> l = v \/ In l (dict_values d).
Proof.
  induction d as [|[k' v'] d IH]; simpl.
  - intros [<- | []]. now left.
  - destruct (String.eqb k' k); simpl; intros [<- | H]; auto.
    destruct (IH H); auto.
Qed.

Lemma add_contact_wf (args : list string) (st : State) :
  wf_state st -> wf_state (snd (add_contact args st)).
Proof.
  intros Hwf. unfold add_contact. rewrite input_error_state.
  unfold add_contact_func. destruct args as [|name [|phone rest]]; try assumption.
  unfold mbind at 1, M_bind at 1, AddressBook.find. simpl.
  destruct (dict_get name (data st)) as [l|].
  - pose proof (call_wf l (add_phone phone) st Hwf) as Hcall.
    unfold mbind, M_bind, mret, M_ret.
    destruct (call l (add_phone phone) st) as [[e | ok] st']; simpl in *;
      apply Hcall; intros r b; rewrite add_phone_birthday; auto.
  - set (st1 := mkState (heap st ++ [Record_init name])
                  (dict_set name (length (heap st)) (data st))).
    assert (Hwf1 : wf_state st1).
    { destruct Hwf as [Hrefs Hdates]. split; simpl.
      - intros l Hl. apply lookup_lt_is_Some. rewrite length_app. simpl.
        apply dict_set_values in Hl as [-> | Hl]; [lia |].
        apply Hrefs, lookup_lt_is_Some in Hl. lia.
      - intros r b Hin Hb. apply in_app_iff in Hin as [Hin | [<- | []]].
        + now apply (Hdates r b).
        + discriminate. }
    pose proof (call_wf (length (heap st)) (add_phone phone) st1 Hwf1) as Hcall.
    unfold mbind, M_bind, mret, M_ret, new_Record, AddressBook.add_record,
      mbind, M_bind, deref, get, put. simpl.
    rewrite lookup_app_r, Nat.sub_diag by lia. simpl. fold st1.
    destruct (call (length (heap st)) (add_phone phone) st1) as [[e | ok] st'];
      simpl in *; apply Hcall; intros r b; rewrite add_phone_birthday; auto.
Qed.

Lemma change_phone_wf (args : list string) (st : State) :
  wf_state st -> wf_state (snd (change_phone args st)).
Proof.
  intros Hwf. unfold change_phone. rewrite input_error_state.
  unfold change_phone_func.
  destruct args as [|name [|old_phone [|new_phone rest]]]; try assumption.
  unfold mbind, M_bind, mret, M_ret, AddressBook.find. simpl.
  destruct (dict_get name (data st)) as [l|]; [| assumption].
  apply call_wf; [assumption |]. intros r b. rewrite edit_phone_birthday. auto.
Qed.

Lemma add_birthday_wf (args : list string) (st : State) :
  wf_state st -> wf_state (snd (add_birthday args st)).
Proof.
  intros Hwf. unfold add_birthday. rewrite input_error_state.
  unfold add_birthday_func. destruct args as [|name [|s rest]]; try assumption.
  unfold mbind at 1, M_bind at 1, AddressBook.find. simpl.
  destruct (dict_get name (data st)) as [l|]; [| assumption].
  pose proof (call_wf l (Record_add_birthday s) st Hwf) as Hcall.
  unfold mbind, M_bind, mret, M_ret.
  destruct (call l (Record_add_birthday s) st) as [[e | ok] st']; simpl in *;
    apply Hcall; intros r b; unfold Record_add_birthday; run_method;
    destruct (Birthday_init s) as [e' | b'] eqn:Hs; simpl; auto;
    intros [= <-]; right; now apply (Birthday_init_valid s).
Qed.

(** Every state of a session is well formed. *)
Lemma reachable_wf (st : State) : reachable st -> wf_state st.
Proof.
  induction 1 as [|st st' _ IH Hstep]; [apply wf_init |].
  destruct Hstep; auto using add_contact_wf, change_phone_wf, add_birthday_wf.
Qed.

End WellFormed.

(** * Further properties of the code *)

(** ** Fields *)



(** X2: a text made of digits only is a valid phone exactly when it has
    ten digits. *)
Theorem X2_phone_of_digits_only (s : string) :
  all_digits s = true ->
  (Phone_init s = Ok (mkPhone s) <-> String.length s = 10%nat).
Proof.
  intros Hs. destruct s as [|c s'].
  - split; [discriminate | discriminate].
  - assert (Hrun : Spec.first_digit_run (String c s') (String c s')).
    { exists "", "". rewrite append_nil_r. repeat split; try assumption.
      discriminate. }
    destruct (findall_first_run _ _ Hrun) as [others E].
    unfold Phone_init. rewrite E.
    destruct (Nat.eqb_spec (String.length (String c s')) 10); split;
      congruence.
Qed.

Lemma X2_phone_of_digits_only_witness :
  (Phone_init "05012345678" = Ok (mkPhone "05012345678")
   <-> String.length "05012345678" = 10%nat).
Proof. apply (X2_phone_of_digits_only "05012345678"). reflexivity. Defined.

(** ** Methods of [Record] *)

Section RecordMethods.

Lemma record_eta (r : Record_) : mkRecord (name r) (phones r) (birthday r) = r.
Proof. now destruct r. Qed.

Lemma occurrences_app (x : Phone) (l l' : list Phone) :
  Spec.occurrences x (l ++ l')
  = (Spec.occurrences x l + Spec.occurrences x l')%nat.
Proof. unfold Spec.occurrences. now rewrite List.filter_app, length_app. Qed.

Lemma occurrences_cons (x e : Phone) (l : list Phone) :
  Spec.occurrences x (e :: l)
  = ((if Phone_eq e (VPhone x) then 1 else 0) + Spec.occurrences x l)%nat.
Proof. unfold Spec.occurrences. simpl. now destruct (Phone_eq e (VPhone x)). Qed.

(** What [remove] takes away is one item equal to [x]. *)
Lemma list_remove_counts (x : Phone) (l l' : list Phone) :
  list_remove x l = Ok l' ->
  length l = S (length l') /\
  Spec.occurrences x l = S (Spec.occurrences x l') /\
  (forall q, q <> x -> Spec.occurrences q l = Spec.occurrences q l').
Proof.
  revert l'. induction l as [|e l IH]; simpl; intros l' H; [discriminate |].
  destruct (Phone_eq e (VPhone x)) eqn:He.
  - injection H as <-. apply Phone_eq_true in He as ->.
    rewrite !occurrences_cons. repeat split.
    + now rewrite (proj2 (Phone_eq_true x x) eq_refl).
    + intros q Hq. apply not_eq_sym, Phone_eq_false in Hq.
      now rewrite occurrences_cons, Hq.
  - destruct (list_remove x l) as [err | r]; [discriminate |].
    injection H as <-. destruct (IH r eq_refl) as (Hlen & Hx & Hq).
    rewrite !occurrences_cons, He. simpl. repeat split; try lia.
    intros q Hne. rewrite !occurrences_cons, (Hq q Hne). reflexivity.
Qed.

Lemma list_remove_last (x : Phone) (l : list Phone) :
  ~ In x l -> list_remove x (l ++ [x]) = Ok l.
Proof.
  induction l as [|e l IH]; simpl; intros Hnot.
  - now rewrite (proj2 (Phone_eq_true x x) eq_refl).
  - assert (He : Phone_eq e (VPhone x) = false)
      by (apply Phone_eq_false; intros ->; tauto).
    rewrite He, IH by tauto. reflexivity.
Qed.

End RecordMethods.

(** X3: [add_phone] with a valid text puts the phone at the end of the
    list and returns [True], whether or not the number is already in the
    list; the number then occurs once more, and the name and the birthday
    are as before. *)
Theorem X3_add_phone_appends (r : Record_) (s : string) (p : Phone) :
  Phone_init s = Ok p ->
  add_phone s r = (Ok true, mkRecord (name r) (phones r ++ [p]) (birthday r)) /\
  Spec.occurrences p (phones r ++ [p]) = S (Spec.occurrences p (phones r)).
Proof.
  intros Hp. split.
  - unfold add_phone. run_method. now rewrite Hp.
  - rewrite occurrences_app, occurrences_cons.
    rewrite (proj2 (Phone_eq_true p p) eq_refl). unfold Spec.occurrences. simpl. lia.
Qed.

Lemma X3_add_phone_appends_witness :
  add_phone "0501234567" (mkRecord "Alice" [mkPhone "0501234567"] None)
  = (Ok true,
     mkRecord "Alice" [mkPhone "0501234567"; mkPhone "0501234567"] None).
Proof.
  apply (proj1 (X3_add_phone_appends
                  (mkRecord "Alice" [mkPhone "0501234567"] None)
                  "0501234567" (mkPhone "0501234567") eq_refl)).
Defined.

(** X4: adding a number that the record does not have and removing it
    again gives the record back. *)
Theorem X4_add_then_remove (r : Record_) (s : string) (p : Phone) :
  Phone_init s = Ok p ->
  ~ In p (phones r) ->
  (add_phone s;; remove_phone s) r = (Ok removed_msg, r).
Proof.
  intros Hp Hnot. unfold add_phone, remove_phone. run_method. rewrite Hp. simpl.
  assert (Hin : list_contains p (phones r ++ [p]) = true).
  { apply list_contains_In, in_app_iff. right. now left. }
  rewrite Hin, (list_remove_last p _ Hnot). simpl. now rewrite record_eta.
Qed.

Lemma X4_add_then_remove_witness :
  (add_phone "0509999999";; remove_phone "0509999999")
    (mkRecord "Alice" [mkPhone "0501234567"] None)
  = (Ok removed_msg, mkRecord "Alice" [mkPhone "0501234567"] None).
Proof.
  apply (X4_add_then_remove (mkRecord "Alice" [mkPhone "0501234567"] None)
           "0509999999" (mkPhone "0509999999") eq_refl).
  simpl. intros [H | []]. discriminate H.
Defined.

(** X5: when the old number is valid but not in the list, [edit_phone]
    answers "This user has not such number. Nothing to change!" and leaves
    the record as it is, whatever the new text: the new text is not
    validated then. *)
Theorem X5_edit_phone_absent (r : Record_) (old_phone new_phone : string)
    (po : Phone) :
  Phone_init old_phone = Ok po ->
  ~ In po (phones r) ->
  edit_phone old_phone new_phone r = (Ok nothing_to_change_msg, r).
Proof.
  intros Ho Hnot. unfold edit_phone. run_method. rewrite Ho.
  destruct (list_contains po (phones r)) eqn:E; [| reflexivity].
  now apply list_contains_In in E.
Qed.

Lemma X5_edit_phone_absent_witness :
  edit_phone "0509999999" "not a phone" (mkRecord "Bob" [mkPhone "1234567890"] None)
  = (Ok nothing_to_change_msg, mkRecord "Bob" [mkPhone "1234567890"] None).
Proof.
  apply (X5_edit_phone_absent (mkRecord "Bob" [mkPhone "1234567890"] None)
           "0509999999" "not a phone" (mkPhone "0509999999") eq_refl).
  simpl. intros [H | []]. discriminate H.
Defined.

(** X6: changing a number of the list into a number that the list does not
    have, and changing it back, gives the record back. *)
Theorem X6_edit_phone_and_back (r : Record_) (old_phone new_phone : string)
    (po pn : Phone) :
  Phone_init old_phone = Ok po ->
  Phone_init new_phone = Ok pn ->
  In po (phones r) ->
  ~ In pn (phones r) ->
  (edit_phone old_phone new_phone;; edit_phone new_phone old_phone) r
  = (Ok changed_msg, r).
Proof.
  intros Ho Hn Hin Hnot.
  destruct (first_position _ _ Hin) as (i & Hi & Hfirst & Hidx & _).
  assert (Hlt : (i < length (phones r))%nat) by (now apply lookup_lt_Some in Hi).
  assert (Hin' : In pn (<[i := pn]> (phones r))).
  { apply list_elem_of_In, list_elem_of_lookup. exists i.
    now apply list_lookup_insert_eq. }
  destruct (first_position _ _ Hin') as (j & Hj & _ & Hidx' & _).
  assert (j = i) as ->.
  { destruct (decide (j = i)) as [E | Hne]; [assumption |].
    rewrite list_lookup_insert_ne in Hj by congruence.
    exfalso. apply Hnot, list_elem_of_In, list_elem_of_lookup. eauto. }
  unfold edit_phone. run_method. rewrite Ho, Hn.
  rewrite (proj2 (list_contains_In _ _) Hin), Hidx. simpl.
  rewrite (proj2 (list_contains_In _ _) Hin'), Hidx'. simpl.
  rewrite list_insert_insert_eq, list_insert_id by assumption.
  now rewrite record_eta.
Qed.

Lemma X6_edit_phone_and_back_witness :
  (edit_phone "1234567890" "0987654321";; edit_phone "0987654321" "1234567890")
    (mkRecord "Bob" [mkPhone "1111111111"; mkPhone "1234567890"] None)
  = (Ok changed_msg,
     mkRecord "Bob" [mkPhone "1111111111"; mkPhone "1234567890"] None).
Proof.
  apply (X6_edit_phone_and_back
           (mkRecord "Bob" [mkPhone "1111111111"; mkPhone "1234567890"] None)
           "1234567890" "0987654321"
           (mkPhone "1234567890") (mkPhone "0987654321") eq_refl eq_refl).
  - simpl. auto.
  - simpl. intros [H | [H | []]]; discriminate H.
Defined.

(** X7: when the number is stored, also several times, [remove_phone]
    takes away one entry only: the list is one shorter, the number occurs
    once less, every other number occurs as often as before, and the name
    and the birthday are as before. *)
Theorem X7_remove_phone_takes_one (r : Record_) (s : string) (p : Phone) :
  Phone_init s = Ok p ->
  In p (phones r) ->
  exists r',
    remove_phone s r = (Ok removed_msg, r') /\
    length (phones r) = S (length (phones r')) /\
    Spec.occurrences p (phones r) = S (Spec.occurrences p (phones r')) /\
    (forall q, q <> p -> Spec.occurrences q (phones r) = Spec.occurrences q (phones r')) /\
    name r' = name r /\ birthday r' = birthday r.
Proof.
  intros Hp Hin. destruct (first_position _ _ Hin) as (i & _ & _ & _ & Hrem).
  destruct (list_remove_counts _ _ _ Hrem) as (Hlen & Hocc & Hother).
  exists (mkRecord (name r) (delete i (phones r)) (birthday r)). split.
  - unfold remove_phone. run_method.
    now rewrite Hp, (proj2 (list_contains_In _ _) Hin), Hrem.
  - simpl. auto.
Qed.

Lemma X7_remove_phone_takes_one_witness :
  exists r',
    remove_phone "0501234567"
      (mkRecord "Alice" [mkPhone "0501234567"; mkPhone "0501234567"] None)
    = (Ok removed_msg, r') /\
    phones r' = [mkPhone "0501234567"].
Proof.
  destruct (X7_remove_phone_takes_one
              (mkRecord "Alice" [mkPhone "0501234567"; mkPhone "0501234567"] None)
              "0501234567" (mkPhone "0501234567") eq_refl)
    as (r' & Hrun & _); [simpl; auto |].
  exists r'. split; [exact Hrun |].
  vm_compute in Hrun. now injection Hrun as <-.
Defined.

(** ** The dictionary of the book *)

Section Dictionary.

Lemma dict_get_set_eq (k : string) (v : loc) (d : list (string * loc)) :
  dict_get k (dict_set k v d) = Some v.
Proof.
  induction d as [|[k' v'] d IH]; simpl.
  - now rewrite String.eqb_refl.
  - destruct (String.eqb k' k) eqn:E; simpl; now rewrite E.
Qed.

Lemma dict_get_set_ne (k k' : string) (v : loc) (d : list (string * loc)) :
  k' <> k -> dict_get k' (dict_set k v d) = dict_get k' d.
Proof.
  intros Hne. induction d as [|[k0 v0] d IH]; simpl.
  - now rewrite (proj2 (String.eqb_neq k k') (not_eq_sym Hne)).
  - destruct (String.eqb_spec k0 k) as [-> | Hk]; simpl.
    + now rewrite (proj2 (String.eqb_neq k k') (not_eq_sym Hne)).
    + now rewrite IH.
Qed.

Lemma dict_get_None (k : string) (d : list (string * loc)) :
  dict_get k d = None <-> ~ In k (dict_keys d).
Proof.
  induction d as [|[k' v'] d IH]; simpl; [tauto |].
  destruct (String.eqb_spec k' k) as [-> | Hk].
  - split; [discriminate | tauto].
  - rewrite IH. tauto.
Qed.

Lemma dict_get_In (k : string) (l : loc) (d : list (string * loc)) :
  dict_get k d = Some l -> In (k, l) d.
Proof.
  induction d as [|[k' v'] d IH]; simpl; [discriminate |].
  destruct (String.eqb_spec k' k) as [-> | Hk].
  - intros [= ->]. now left.
  - intros H. right. now apply IH.
Qed.

Lemma dict_get_value (k : string) (l : loc) (d : list (string * loc)) :
  dict_get k d = Some l -> In l (dict_values d).
Proof.
  intros H. apply dict_get_In in H. unfold dict_values.
  apply in_map_iff. exists (k, l). auto.
Qed.

(** Setting a key that is there keeps the keys; setting a new key puts it
    last. *)
Lemma dict_set_known (k : string) (v l : loc) (d : list (string * loc)) :
  dict_get k d = Some l -> dict_keys (dict_set k v d) = dict_keys d.
Proof.
  induction d as [|[k' v'] d IH]; simpl; [discriminate |].
  destruct (String.eqb_spec k' k) as [-> | Hk]; simpl; [reflexivity |].
  intros H. now rewrite IH.
Qed.

Lemma dict_set_new (k : string) (v : loc) (d : list (string * loc)) :
  dict_get k d = None -> dict_set k v d = (d ++ [(k, v)])%list.
Proof.
  induction d as [|[k' v'] d IH]; simpl; [reflexivity |].
  destruct (String.eqb_spec k' k) as [-> | Hk]; [discriminate |].
  intros H. now rewrite IH.
Qed.

Lemma dict_get_del_ne (k k' : string) (d : list (string * loc)) :
  k' <> k -> dict_get k' (dict_del k d) = dict_get k' d.
Proof.
  intros Hne. induction d as [|[k0 v0] d IH]; simpl; [reflexivity |].
  destruct (String.eqb_spec k0 k) as [-> | Hk]; simpl.
  - now rewrite (proj2 (String.eqb_neq k k') (not_eq_sym Hne)).
  - now rewrite IH.
Qed.

Lemma dict_keys_del (k : string) (d : list (string * loc)) :
  forall k', In k' (dict_keys (dict_del k d)) -> In k' (dict_keys d).
Proof.
  induction d as [|[k0 v0] d IH]; simpl; [tauto |].
  destruct (String.eqb k0 k); simpl; intros k' H; [tauto |].
  destruct H; auto.
Qed.

Lemma dict_get_del_eq (k : string) (d : list (string * loc)) :
  List.NoDup (dict_keys d) -> dict_get k (dict_del k d) = None.
Proof.
  induction d as [|[k0 v0] d IH]; simpl; [reflexivity |].
  intros Hnd. apply List.NoDup_cons_iff in Hnd as [Hnot Hnd].
  destruct (String.eqb_spec k0 k) as [-> | Hk]; simpl.
  - now apply dict_get_None.
  - rewrite (proj2 (String.eqb_neq k0 k) Hk). now apply IH.
Qed.

End Dictionary.

(** X8: [add_record] stores the record under its own name: [find] with
    that name then gives this record, also when another record was under
    the name before, and [find] with any other name gives what it gave
    before.  No record is changed. *)
Theorem X8_add_record_then_find (st : State) (l : loc) (r : Record_) :
  heap st !! l = Some r ->
  exists st',
    AddressBook.add_record l st = (Ok tt, st') /\
    AddressBook.find (name r) st' = (Ok (Some l), st') /\
    (forall k, k <> name r ->
       fst (AddressBook.find k st') = fst (AddressBook.find k st)) /\
    heap st' = heap st.
Proof.
  intros Hl. exists (mkState (heap st) (dict_set (name r) l (data st))).
  unfold AddressBook.add_record, AddressBook.find, mbind, M_bind, deref, get, put.
  rewrite Hl. simpl. repeat split.
  - now rewrite dict_get_set_eq.
  - intros k Hk. now rewrite dict_get_set_ne.
Qed.

Lemma X8_add_record_then_find_witness :
  exists st',
    AddressBook.add_record 1%nat
      (mkState [mkRecord "Alice" [] None; mkRecord "Alice" [mkPhone "0501234567"] None]
         [("Alice", 0%nat)])
    = (Ok tt, st') /\
    AddressBook.find "Alice" st' = (Ok (Some 1%nat), st').
Proof.
  destruct (X8_add_record_then_find
    (mkState [mkRecord "Alice" [] None; mkRecord "Alice" [mkPhone "0501234567"] None]
       [("Alice", 0%nat)])
    1%nat (mkRecord "Alice" [mkPhone "0501234567"] None) eq_refl)
    as (st' & Hadd & Hfind & _).
  exists st'. split; [exact Hadd | exact Hfind].
Defined.

(** X9: [add_record] keeps the order of the book: a name that is in the
    book keeps its place, a new name goes last. *)
Theorem X9_add_record_order (st : State) (l : loc) (r : Record_) :
  heap st !! l = Some r ->
  dict_keys (data (snd (AddressBook.add_record l st)))
  = match dict_get (name r) (data st) with
    | Some _ => dict_keys (data st)
    | None => (dict_keys (data st) ++ [name r])%list
    end.
Proof.
  intros Hl.
  unfold AddressBook.add_record, mbind, M_bind, deref, get, put.
  rewrite Hl. simpl.
  destruct (dict_get (name r) (data st)) as [l0|] eqn:E.
  - now apply (dict_set_known _ _ l0).
  - rewrite dict_set_new by assumption. unfold dict_keys.
    now rewrite map_app.
Qed.

Lemma X9_add_record_order_witness :
  dict_keys (data (snd (AddressBook.add_record 2%nat
    (mkState [mkRecord "Alice" [] None; mkRecord "Bob" [] None;
              mkRecord "Alice" [] None]
       [("Alice", 0%nat); ("Bob", 1%nat)]))))
  = ["Alice"; "Bob"].
Proof.
  apply (X9_add_record_order
    (mkState [mkRecord "Alice" [] None; mkRecord "Bob" [] None;
              mkRecord "Alice" [] None]
       [("Alice", 0%nat); ("Bob", 1%nat)])
    2%nat (mkRecord "Alice" [] None) eq_refl).
Defined.

(** X10: after [delete] of a name, in a book without a name twice, [find]
    gives nothing for that name and gives for every other name what it
    gave before; [delete] of a name that is not in the book changes
    nothing; no record of the store is changed and no name comes in. *)
Theorem X10_delete_then_find (st : State) (k : string) :
  List.NoDup (dict_keys (data st)) ->
  exists st',
    AddressBook.delete k st = (Ok tt, st') /\
    fst (AddressBook.find k st') = Ok None /\
    (forall k', k' <> k ->
       fst (AddressBook.find k' st') = fst (AddressBook.find k' st)) /\
    (dict_get k (data st) = None -> st' = st) /\
    heap st' = heap st /\
    (forall k', In k' (dict_keys (data st')) -> In k' (dict_keys (data st))).
Proof.
  intros Hnd. unfold AddressBook.delete, AddressBook.find.
  destruct (dict_get k (data st)) as [l|] eqn:E.
  - exists (mkState (heap st) (dict_del k (data st))). simpl. repeat split.
    + now rewrite dict_get_del_eq.
    + intros k' Hk'. now rewrite dict_get_del_ne.
    + discriminate.
    + apply dict_keys_del.
  - exists st. simpl. repeat split; auto. now rewrite E.
Qed.

Lemma X10_delete_then_find_witness :
  exists st',
    AddressBook.delete "Alice"
      (mkState [mkRecord "Alice" [] None; mkRecord "Bob" [] None]
         [("Alice", 0%nat); ("Bob", 1%nat)])
    = (Ok tt, st') /\
    fst (AddressBook.find "Alice" st') = Ok None /\
    fst (AddressBook.find "Bob" st') = Ok (Some 1%nat).
Proof.
  destruct (X10_delete_then_find
    (mkState [mkRecord "Alice" [] None; mkRecord "Bob" [] None]
       [("Alice", 0%nat); ("Bob", 1%nat)]) "Alice")
    as (st' & Hdel & Hgone & Hother & _).
  - simpl. repeat constructor; simpl; intros H;
      repeat (destruct H as [H | H]; try discriminate H); exact H.
  - exists st'. split; [exact Hdel |]. split; [exact Hgone |].
    rewrite (Hother "Bob") by discriminate. reflexivity.
Defined.

(** ** What the commands keep *)

Section Evolution.

Lemma add_phone_evolves (phone : string) (r : Record_) :
  record_evolves r (snd (add_phone phone r)).
Proof.
  unfold add_phone. run_method.
  destruct (Phone_init phone) as [e | p] eqn:Hp; simpl.
  - repeat split; auto.
  - repeat split; simpl; auto. intros q Hq.
    apply in_app_iff in Hq as [Hq | [<- | []]]; [now left | right].
    apply Phone_init_value in Hp as E. now subst p.
Qed.

Lemma edit_phone_evolves (old_phone new_phone : string) (r : Record_) :
  record_evolves r (snd (edit_phone old_phone new_phone r)).
Proof.
  unfold edit_phone. run_method.
  destruct (Phone_init old_phone) as [e | po]; [repeat split; auto |].
  destruct (list_contains po (phones r)); [| repeat split; auto].
  destruct (Phone_init new_phone) as [e | pn] eqn:Hn; [repeat split; auto |].
  destruct (list_index po (phones r)) as [e | i]; [repeat split; auto |].
  repeat split; simpl; auto. intros q Hq.
  apply list_elem_of_In, list_elem_of_lookup in Hq as [j Hj].
  destruct (decide (j = i)) as [-> | Hne].
  - destruct (decide (i < length (phones r))%nat) as [Hlt | Hge].
    + rewrite list_lookup_insert_eq in Hj by assumption. injection Hj as <-.
      right. apply Phone_init_value in Hn as E. now subst pn.
    + rewrite list_insert_ge in Hj by lia. left.
      apply list_elem_of_In, list_elem_of_lookup. eauto.
  - rewrite list_lookup_insert_ne in Hj by congruence. left.
    apply list_elem_of_In, list_elem_of_lookup. eauto.
Qed.

Lemma Record_add_birthday_evolves (s : string) (r : Record_) :
  record_evolves r (snd (Record_add_birthday s r)).
Proof.
  unfold Record_add_birthday. run_method.
  destruct (Birthday_init s) as [e | b] eqn:Hs; simpl.
  - repeat split; auto.
  - repeat split; simpl; auto. intros b' [= <-]. right.
    now apply (Birthday_init_valid s).
Qed.

Lemma call_evolves {A} (l : loc) (method : M Record_ A) (st : State) :
  (forall r, record_evolves r (snd (method r))) ->
  evolves st (snd (call l method st)).
Proof.
  intros Hm. unfold call. destruct (heap st !! l) as [r|] eqn:Hl; [| constructor].
  specialize (Hm r). destruct (method r) as [res r']. simpl in *.
  now apply (evolves_update st l r r').
Qed.

Lemma bind_call_state {A} (l : loc) (method : M Record_ A) (msg : string)
    (st : State) :
  snd ((call l method;; mret msg) st) = snd (call l method st).
Proof.
  unfold mbind, M_bind, mret, M_ret.
  now destruct (call l method st) as [[e | a] st'].
Qed.

Lemma insert_last (h : list Record_) (r r' : Record_) :
  <[length h := r']> (h ++ [r])%list = (h ++ [r'])%list.
Proof.
  induction h as [|x h IH]; simpl; [reflexivity | now rewrite IH].
Qed.

(** The state after [add_contact] for a name that is new: one more record,
    the one [add_phone] has made of the empty record. *)
Lemma add_contact_new_state (name phone : string) (rest : list string)
    (st : State) :
  dict_get name (data st) = None ->
  snd (add_contact (name :: phone :: rest) st)
  = mkState (heap st ++ [snd (add_phone phone (Record_init name))])
      (data st ++ [(name, length (heap st))]).
Proof.
  intros Hnew. unfold add_contact. rewrite input_error_state.
  unfold add_contact_func.
  unfold mbind at 1, M_bind at 1, AddressBook.find. simpl. rewrite Hnew.
  unfold mbind at 1, M_bind at 1, new_Record. simpl.
  unfold mbind at 1, M_bind at 1, AddressBook.add_record.
  unfold mbind at 1, M_bind at 1, deref. simpl.
  rewrite lookup_app_r, Nat.sub_diag by lia. simpl.
  unfold mbind at 1, M_bind at 1, get, put. simpl.
  rewrite (dict_set_new _ _ _ Hnew).
  unfold call. simpl.
  rewrite lookup_app_r, Nat.sub_diag by lia. simpl.
  destruct (add_phone phone (Record_init name)) as [[e | ok] r']; simpl;
    now rewrite insert_last.
Qed.

(** Every command makes of the book what [evolves] allows. *)
Lemma step_evolves (st st' : State) : step st st' -> evolves st st'.
Proof.
  intros [args st0 | args st0 | args st0].
  - destruct args as [|name [|phone rest]]; try constructor.
    destruct (dict_get name (data st0)) as [l|] eqn:Hfind.
    + unfold add_contact. rewrite input_error_state. unfold add_contact_func.
      unfold mbind at 1, M_bind at 1, AddressBook.find. simpl. rewrite Hfind.
      rewrite bind_call_state. apply call_evolves, add_phone_evolves.
    + rewrite (add_contact_new_state _ _ _ _ Hfind).
      apply evolves_new; [assumption | apply add_phone_evolves].
  - unfold change_phone. rewrite input_error_state. unfold change_phone_func.
    destruct args as [|name [|old_phone [|new_phone rest]]]; try constructor.
    unfold mbind, M_bind, AddressBook.find. simpl.
    destruct (dict_get name (data st0)) as [l|]; [| constructor].
    apply call_evolves, edit_phone_evolves.
  - unfold add_birthday. rewrite input_error_state. unfold add_birthday_func.
    destruct args as [|name [|s rest]]; try constructor.
    unfold mbind at 1, M_bind at 1, AddressBook.find. simpl.
    destruct (dict_get name (data st0)) as [l|]; [| constructor].
    rewrite bind_call_state. apply call_evolves, Record_add_birthday_evolves.
Qed.

Lemma evolves_book_inv (st st' : State) :
  evolves st st' -> book_inv st -> book_inv st'.
Proof.
  intros [st0 | st0 l r r' Hl (Hname & _) | st0 k r' Hnew (Hname & _)]
    (Hkeys & Hvals & Hnames); [repeat split; assumption | |].
  - repeat split; try assumption. simpl. intros k l0 Hin.
    destruct (Hnames k l0 Hin) as (r0 & Hl0 & Hk).
    destruct (decide (l0 = l)) as [-> | Hne].
    + exists r'. rewrite list_lookup_insert_eq by (now apply lookup_lt_Some in Hl).
      split; [reflexivity | congruence].
    + exists r0. now rewrite list_lookup_insert_ne by congruence.
  - unfold book_inv, dict_keys, dict_values in *. simpl. rewrite !map_app. simpl.
    split; [| split].
    + apply List.NoDup_app; repeat split; auto.
      * repeat constructor. simpl. tauto.
      * intros k' Hk' [<- | []]. now apply dict_get_None in Hnew.
    + apply List.NoDup_app; repeat split; auto.
      * repeat constructor. simpl. tauto.
      * intros l' Hl' [<- | []]. apply in_map_iff in Hl' as ([k' l'] & E & Hin).
        simpl in E. subst l'. destruct (Hnames k' _ Hin) as (r0 & Hl0 & _).
        apply lookup_lt_Some in Hl0. lia.
    + intros k' l' Hin. apply in_app_iff in Hin as [Hin | [[= <- <-] | []]].
      * destruct (Hnames k' l' Hin) as (r0 & Hl0 & Hk). exists r0.
        split; [| assumption]. rewrite lookup_app_l; [assumption |].
        now apply lookup_lt_Some in Hl0.
      * exists r'. rewrite lookup_app_r, Nat.sub_diag by lia. simpl.
        split; [reflexivity | exact Hname].
Qed.

Lemma evolves_phones_valid (st st' : State) :
  evolves st st' -> phones_valid st -> phones_valid st'.
Proof.
  intros [st0 | st0 l r r' Hl (_ & Hphones & _) | st0 k r' Hnew (_ & Hphones & _)]
    Hvalid; [assumption | |]; intros r0 p Hr0 Hp; simpl in Hr0.
  - apply list_elem_of_In, list_elem_of_lookup in Hr0 as [i Hi].
    destruct (decide (i = l)) as [-> | Hne].
    + rewrite list_lookup_insert_eq in Hi by (now apply lookup_lt_Some in Hl).
      injection Hi as <-. destruct (Hphones p Hp) as [Hold | Hok]; [| assumption].
      apply (Hvalid r p); [now apply (heap_In st0 l) | assumption].
    + rewrite list_lookup_insert_ne in Hi by congruence.
      apply (Hvalid r0 p); [now apply (heap_In st0 i) | assumption].
  - apply in_app_iff in Hr0 as [Hr0 | [<- | []]].
    + now apply (Hvalid r0 p).
    + destruct (Hphones p Hp) as [[] | Hok]. assumption.
Qed.

(** What there is stays where it is: the entries of the dictionary stay in
    front, in their order, and the records keep their names. *)
Lemma evolves_keeps (st st' : State) :
  evolves st st' ->
  dict_extends (data st) (data st') /\
  (forall (l : loc) r, heap st !! l = Some r ->
     exists r', heap st' !! l = Some r' /\ name r' = name r).
Proof.
  intros [st0 | st0 l r r' Hl (Hname & _) | st0 k r' Hnew _]; cbn [heap data].
  - split; [exists []; now rewrite app_nil_r | eauto].
  - split; [exists []; now rewrite app_nil_r |]. intros l0 r0 Hl0.
    destruct (decide (l0 = l)) as [-> | Hne].
    + exists r'. rewrite list_lookup_insert_eq by (now apply lookup_lt_Some in Hl).
      rewrite Hl in Hl0. injection Hl0 as <-. auto.
    + exists r0. now rewrite list_lookup_insert_ne by congruence.
  - split; [now exists [(k, length (heap st0))] |]. intros l0 r0 Hl0.
    exists r0. split; [| reflexivity]. rewrite lookup_app_l; [assumption |].
    now apply lookup_lt_Some in Hl0.
Qed.

End Evolution.

(** X11: in every state a session reaches from the empty book, no name is
    in the book twice, no record is under two names, and every record is
    under its own name. *)
Theorem X11_reachable_book_inv (st : State) : reachable st -> book_inv st.
Proof.
  induction 1 as [|st st' _ IH Hstep].
  - repeat split; simpl; try constructor. intros k l [].
  - apply (evolves_book_inv st st'); [now apply step_evolves | assumption].
Qed.

Lemma X11_reachable_book_inv_witness :
  book_inv (snd (add_contact ["Bob"; "123"]
                   (snd (add_contact ["Alice"; "0501234567"] AddressBook_init)))).
Proof.
  apply X11_reachable_book_inv.
  apply (reachable_step
           (snd (add_contact ["Alice"; "0501234567"] AddressBook_init))).
  - apply (reachable_step AddressBook_init); [constructor |].
    apply (step_add_contact ["Alice"; "0501234567"]).
  - apply (step_add_contact ["Bob"; "123"]).
Defined.

(** X12: in every state a session reaches from the empty book, every
    phone of every record is a valid one: building a phone from its text
    succeeds and gives that phone. *)
Theorem X12_reachable_phones_valid (st : State) :
  reachable st -> phones_valid st.
Proof.
  induction 1 as [|st st' _ IH Hstep].
  - intros r p [].
  - apply (evolves_phones_valid st st'); [now apply step_evolves | assumption].
Qed.

Lemma X12_reachable_phones_valid_witness :
  phones_valid (snd (change_phone ["Alice"; "0501234567"; "0509999999"]
                       (snd (add_contact ["Alice"; "0501234567"] AddressBook_init)))).
Proof.
  apply X12_reachable_phones_valid.
  apply (reachable_step
           (snd (add_contact ["Alice"; "0501234567"] AddressBook_init))).
  - apply (reachable_step AddressBook_init); [constructor |].
    apply (step_add_contact ["Alice"; "0501234567"]).
  - apply (step_change_phone ["Alice"; "0501234567"; "0509999999"]).
Defined.

(** X13: no sequence of commands removes, renames or moves a contact: the
    entries of the dictionary stay in front in their order, every name
    that [find] found it finds again with the same record object, and
    that record has the name it had. *)
Theorem X13_commands_keep_contacts (st st' : State) :
  steps st st' ->
  dict_extends (data st) (data st') /\
  (forall (l : loc) r, heap st !! l = Some r ->
     exists r', heap st' !! l = Some r' /\ name r' = name r) /\
  (forall k l, dict_get k (data st) = Some l -> dict_get k (data st') = Some l).
Proof.
  intros Hsteps.
  assert (H : dict_extends (data st) (data st') /\
              (forall (l : loc) r, heap st !! l = Some r ->
                 exists r', heap st' !! l = Some r' /\ name r' = name r)).
  { induction Hsteps as [st | st st1 st2 Hstep _ [[more2 E2] Hnames2]].
    - split; [exists []; now rewrite app_nil_r | eauto].
    - destruct (evolves_keeps _ _ (step_evolves _ _ Hstep)) as [[more1 E1] Hnames1].
      split.
      + exists (more1 ++ more2)%list. now rewrite E2, E1, <- app_assoc.
      + intros l r Hl. destruct (Hnames1 l r Hl) as (r1 & Hl1 & Hn1).
        destruct (Hnames2 l r1 Hl1) as (r2 & Hl2 & Hn2).
        exists r2. split; [assumption | congruence]. }
  destruct H as [[more E] Hnames]. repeat split; eauto; [now exists more |].
  intros k l Hget. rewrite E. clear E.
  induction (data st) as [|[k0 l0] d IH]; simpl in *; [discriminate |].
  destruct (String.eqb k0 k); [assumption | now apply IH].
Qed.

Lemma X13_commands_keep_contacts_witness :
  dict_get "Alice"
    (data (snd (add_contact ["Bob"; "0509999999"]
                  (mkState [mkRecord "Alice" [] None] [("Alice", 0%nat)]))))
  = Some 0%nat.
Proof.
  apply (X13_commands_keep_contacts
           (mkState [mkRecord "Alice" [] None] [("Alice", 0%nat)])).
  - apply (steps_more _ _ _ (step_add_contact ["Bob"; "0509999999"] _)).
    apply steps_none.
  - reflexivity.
Defined.

(** ** Handlers *)

Section Handlers.

Lemma call_found {A} (l : loc) (method : M Record_ A) (st : State) (r : Record_) :
  heap st !! l = Some r ->
  call l method st
  = (fst (method r), mkState (<[l := snd (method r)]> (heap st)) (data st)).
Proof.
  intros Hl. unfold call. rewrite Hl. now destruct (method r).
Qed.

Lemma add_phone_valid (phone : string) (p : Phone) (r : Record_) :
  Phone_init phone = Ok p ->
  add_phone phone r = (Ok true, mkRecord (name r) (phones r ++ [p]) (birthday r)).
Proof. intros Hp. unfold add_phone. run_method. now rewrite Hp. Qed.

Lemma add_phone_invalid (phone : string) (r : Record_) :
  (forall p, Phone_init phone <> Ok p) ->
  add_phone phone r = (Raise (ValueError phone_error), r).
Proof.
  intros Hbad. unfold add_phone. run_method.
  destruct (Phone_init_cases phone) as [E | E]; [now destruct (Hbad _ E) |].
  now rewrite E.
Qed.

(** [add_contact] up to the call of [add_phone], for a name that is new
    and for a name that the book has. *)
Lemma add_contact_new (name phone : string) (rest : list string) (st : State) :
  dict_get name (data st) = None ->
  add_contact (name :: phone :: rest) st
  = input_error
      (call (length (heap st)) (add_phone phone);; mret "Contact added.")
      (mkState (heap st ++ [Record_init name])
         (data st ++ [(name, length (heap st))])).
Proof.
  intros Hnew. unfold add_contact, add_contact_func, input_error.
  unfold mbind at 1, M_bind at 1, AddressBook.find. simpl. rewrite Hnew.
  unfold mbind at 1, M_bind at 1, new_Record. simpl.
  unfold mbind at 1, M_bind at 1, AddressBook.add_record.
  unfold mbind at 1, M_bind at 1, deref. simpl.
  rewrite lookup_app_r, Nat.sub_diag by lia. simpl.
  unfold mbind at 1, M_bind at 1, get, put. simpl.
  now rewrite (dict_set_new _ _ _ Hnew).
Qed.

Lemma add_contact_known (name phone : string) (rest : list string)
    (st : State) (l : loc) :
  dict_get name (data st) = Some l ->
  add_contact (name :: phone :: rest) st
  = input_error (call l (add_phone phone);; mret "Contact updated.") st.
Proof.
  intros Hfind. unfold add_contact, add_contact_func, input_error.
  unfold mbind at 1, M_bind at 1, AddressBook.find. simpl. now rewrite Hfind.
Qed.

(** What [add_contact] does with a valid phone, for a new and for a known
    name. *)
Lemma add_contact_valid_cases (k phone : string) (rest : list string)
    (p : Phone) (st : State) :
  Phone_init phone = Ok p ->
  (dict_get k (data st) = None ->
     add_contact (k :: phone :: rest) st
     = (Ok "Contact added.",
        mkState (heap st ++ [mkRecord k [p] None])
          (data st ++ [(k, length (heap st))]))) /\
  (forall l r, dict_get k (data st) = Some l -> heap st !! l = Some r ->
     add_contact (k :: phone :: rest) st
     = (Ok "Contact updated.",
        mkState (<[l := mkRecord (name r) (phones r ++ [p]) (birthday r)]>
                   (heap st)) (data st))).
Proof.
  intros Hp. split.
  - intros Hnew. rewrite (add_contact_new _ _ _ _ Hnew).
    unfold input_error, mbind, M_bind, mret, M_ret.
    rewrite (call_found _ _ _ (Record_init k))
      by (simpl; now rewrite lookup_app_r, Nat.sub_diag by lia).
    rewrite (add_phone_valid _ p) by assumption. simpl.
    now rewrite insert_last.
  - intros l r Hfind Hl. rewrite (add_contact_known _ _ _ _ l Hfind).
    unfold input_error, mbind, M_bind, mret, M_ret.
    rewrite (call_found _ _ _ r Hl).
    now rewrite (add_phone_valid _ p) by assumption.
Qed.

End Handlers.

(** X14: [add_contact] with a valid phone.  For a name that is not in the
    book it answers "Contact added.", and the book has one more record,
    last in its order, with that name, that one phone and no birthday.
    For a name that is in the book it answers "Contact updated.", and the
    phone is put at the end of the phones of that record; nothing else
    changes.  Arguments after the second are ignored. *)
Theorem X14_add_contact_valid (k phone : string) (rest : list string)
    (p : Phone) (st : State) :
  Phone_init phone = Ok p ->
  (dict_get k (data st) = None ->
     add_contact (k :: phone :: rest) st
     = (Ok "Contact added.",
        mkState (heap st ++ [mkRecord k [p] None])
          (data st ++ [(k, length (heap st))]))) /\
  (forall l r, dict_get k (data st) = Some l -> heap st !! l = Some r ->
     add_contact (k :: phone :: rest) st
     = (Ok "Contact updated.",
        mkState (<[l := mkRecord (name r) (phones r ++ [p]) (birthday r)]>
                   (heap st)) (data st))).
Proof. apply add_contact_valid_cases. Qed.

Lemma X14_add_contact_valid_witness :
  add_contact ["Bob"; "0509999999"; "and"; "more"]
    (mkState [mkRecord "Alice" [] None] [("Alice", 0%nat)])
  = (Ok "Contact added.",
     mkState [mkRecord "Alice" [] None; mkRecord "Bob" [mkPhone "0509999999"] None]
       [("Alice", 0%nat); ("Bob", 1%nat)]).
Proof.
  apply (proj1 (X14_add_contact_valid "Bob" "0509999999" ["and"; "more"]
                  (mkPhone "0509999999")
                  (mkState [mkRecord "Alice" [] None] [("Alice", 0%nat)])
                  eq_refl)).
  reflexivity.
Defined.

(** X15: a rejected "add" for a new name is not without effect on the
    next command: after [add_contact] with a new name and an invalid
    phone, [add_contact] with the same name and a valid phone answers
    "Contact updated.", not "Contact added."; the book is then the one a
    single "add" with the valid phone would have made. *)
Theorem X15_add_after_rejected_add (k bad good : string)
    (rest rest' : list string) (p : Phone) (st : State) :
  dict_get k (data st) = None ->
  (forall q, Phone_init bad <> Ok q) ->
  Phone_init good = Ok p ->
  (add_contact (k :: bad :: rest);; add_contact (k :: good :: rest')) st
  = (Ok "Contact updated.",
     mkState (heap st ++ [mkRecord k [p] None])
       (data st ++ [(k, length (heap st))])).
Proof.
  intros Hnew Hbad Hgood. unfold mbind at 1, M_bind at 1.
  rewrite (add_contact_new _ _ _ _ Hnew).
  unfold input_error at 1, mbind at 1, M_bind at 1.
  rewrite (call_found _ _ _ (Record_init k))
    by (simpl; now rewrite lookup_app_r, Nat.sub_diag by lia).
  rewrite (add_phone_invalid _ _ Hbad). simpl. rewrite insert_last.
  destruct (add_contact_valid_cases k good rest' p
              (mkState (heap st ++ [Record_init k])
                 (data st ++ [(k, length (heap st))])) Hgood) as [_ Hknown].
  rewrite (Hknown (length (heap st)) (Record_init k)).
  - simpl. now rewrite insert_last.
  - simpl. clear -Hnew. induction (data st) as [|[k0 l0] d IH]; simpl in *.
    + now rewrite String.eqb_refl.
    + destruct (String.eqb k0 k); [discriminate | now apply IH].
  - simpl. now rewrite lookup_app_r, Nat.sub_diag by lia.
Qed.

Lemma X15_add_after_rejected_add_witness :
  (add_contact ["Bob"; "123"];; add_contact ["Bob"; "0509999999"]) AddressBook_init
  = (Ok "Contact updated.",
     mkState [mkRecord "Bob" [mkPhone "0509999999"] None] [("Bob", 0%nat)]).
Proof.
  apply (X15_add_after_rejected_add "Bob" "123" "0509999999" [] []
           (mkPhone "0509999999") AddressBook_init).
  - reflexivity.
  - intros q. vm_compute. discriminate.
  - reflexivity.
Defined.

(** X16: for a name that is not in the book, [change_phone],
    [add_birthday], [show_birthday] and [show_phone] answer "No such user
    in address book!" and change nothing, whatever the other arguments:
    the contact is looked up before any phone or date is validated. *)
Theorem X16_missing_contact (k : string) (st : State) :
  dict_get k (data st) = None ->
  (forall old_phone new_phone rest,
     change_phone (k :: old_phone :: new_phone :: rest) st = (Ok no_such_user, st)) /\
  (forall s rest, add_birthday (k :: s :: rest) st = (Ok no_such_user, st)) /\
  (forall rest, show_birthday (k :: rest) st = (Ok no_such_user, st)) /\
  (forall rest, show_phone (k :: rest) st = (Ok no_such_user, st)).
Proof.
  intros Hnew. repeat split; intros;
    unfold change_phone, change_phone_func, add_birthday, add_birthday_func,
      show_birthday, show_birthday_func, show_phone, show_phone_func,
      input_error, mbind, M_bind, mret, M_ret, AddressBook.find; simpl;
    now rewrite Hnew.
Qed.

Lemma X16_missing_contact_witness :
  change_phone ["Bob"; "111"; "222"] AddressBook_init = (Ok no_such_user, AddressBook_init) /\
  add_birthday ["Bob"; "31.02.2020"] AddressBook_init = (Ok no_such_user, AddressBook_init).
Proof.
  destruct (X16_missing_contact "Bob" AddressBook_init eq_refl) as (Hc & Hb & _).
  split; [apply Hc | apply Hb].
Defined.

(** X17: for a contact of the book, [change_phone] with an old number that
    is not a valid phone answers "Phone number must contain 10 digits" and
    changes nothing, whatever the phones of the contact and whatever the
    new number. *)
Theorem X17_change_phone_invalid_old (k old_phone new_phone : string)
    (rest : list string) (st : State) (l : loc) (r : Record_) :
  dict_get k (data st) = Some l ->
  heap st !! l = Some r ->
  (forall p, Phone_init old_phone <> Ok p) ->
  change_phone (k :: old_phone :: new_phone :: rest) st = (Ok phone_error, st).
Proof.
  intros Hfind Hl Hbad.
  unfold change_phone, change_phone_func, input_error, mbind, M_bind,
    AddressBook.find. simpl. rewrite Hfind, (call_found _ _ _ r Hl).
  assert (E : edit_phone old_phone new_phone r = (Raise (ValueError phone_error), r)).
  { unfold edit_phone. run_method.
    destruct (Phone_init_cases old_phone) as [E | E]; [now destruct (Hbad _ E) |].
    now rewrite E. }
  rewrite E. simpl. now rewrite list_insert_id, state_eta.
Qed.

Lemma X17_change_phone_invalid_old_witness :
  change_phone ["Bob"; "111"; "222"]
    (mkState [mkRecord "Bob" [mkPhone "1234567890"] None] [("Bob", 0%nat)])
  = (Ok phone_error,
     mkState [mkRecord "Bob" [mkPhone "1234567890"] None] [("Bob", 0%nat)]).
Proof.
  apply (X17_change_phone_invalid_old "Bob" "111" "222" []
           (mkState [mkRecord "Bob" [mkPhone "1234567890"] None] [("Bob", 0%nat)])
           0%nat (mkRecord "Bob" [mkPhone "1234567890"] None) eq_refl eq_refl).
  intros p. vm_compute. discriminate.
Defined.

(** X18: after [add_birthday] has set a birthday for a contact,
    [show_birthday] for that contact answers with the name as it was
    typed and the birthday as [Birthday] prints it; for a year from 1000
    on that is the form DD.MM.YYYY of the same date, also when the date
    was typed in another accepted form. *)
Theorem X18_show_after_add_birthday (k s : string) (rest rest' : list string)
    (st : State) (l : loc) (r : Record_) (b : Birthday) :
  dict_get k (data st) = Some l ->
  heap st !! l = Some r ->
  Birthday_init s = Ok b ->
  (add_birthday (k :: s :: rest);; show_birthday (k :: rest')) st
  = (Ok (k ++ "'s birthday is on " ++ Birthday_str b),
     mkState (<[l := mkRecord (name r) (phones r) (Some b)]> (heap st)) (data st)) /\
  (1000 <= year (birthday_value b) ->
     Spec.strict_birthday (Birthday_str b) = true /\
     Spec.strict_date (Birthday_str b) = birthday_value b).
Proof.
  intros Hfind Hl Hb. split.
  - assert (Hlt : (l < length (heap st))%nat) by (now apply lookup_lt_Some in Hl).
    unfold add_birthday, add_birthday_func, show_birthday, show_birthday_func,
      input_error, mbind, M_bind, mret, M_ret, AddressBook.find, deref. simpl.
    rewrite Hfind, (call_found _ _ _ r Hl).
    unfold Record_add_birthday. run_method. rewrite Hb. simpl. rewrite Hfind.
    cbn [heap data]. rewrite list_lookup_insert_eq by assumption. reflexivity.
  - intros Hy. apply strftime_strict; [| assumption].
    now apply (Birthday_init_valid s).
Qed.

Lemma X18_show_after_add_birthday_witness :
  fst ((add_birthday ["Alice"; "1.3.1990"];; show_birthday ["Alice"])
         (mkState [mkRecord "Alice" [] None] [("Alice", 0%nat)]))
  = Ok "Alice's birthday is on 01.03.1990".
Proof.
  rewrite (proj1 (X18_show_after_add_birthday "Alice" "1.3.1990" [] []
             (mkState [mkRecord "Alice" [] None] [("Alice", 0%nat)])
             0%nat (mkRecord "Alice" [] None) (mkBirthday (mkdate 1990 3 1))
             eq_refl eq_refl eq_refl)).
  reflexivity.
Defined.

(** X19: after [add_contact] with a valid phone, [show_phone] for that
    name answers with the phones the contact had, if it was in the book,
    and then the new phone, as they were typed, joined by ", ". *)
Theorem X19_show_phone_after_add (k phone : string) (rest rest' : list string)
    (p : Phone) (st : State) :
  Phone_init phone = Ok p ->
  (dict_get k (data st) = None ->
     fst ((add_contact (k :: phone :: rest);; show_phone (k :: rest')) st)
     = Ok phone) /\
  (forall l r, dict_get k (data st) = Some l -> heap st !! l = Some r ->
     fst ((add_contact (k :: phone :: rest);; show_phone (k :: rest')) st)
     = Ok (join ", " (map Phone_str (phones r) ++ [phone]))).
Proof.
  intros Hp. apply Phone_init_value in Hp as Ep.
  destruct (add_contact_valid_cases k phone rest p st Hp) as [Hnew Hknown].
  split.
  - intros Hk. unfold mbind at 1, M_bind at 1. rewrite (Hnew Hk).
    unfold show_phone, show_phone_func, input_error, mbind, M_bind, mret, M_ret,
      AddressBook.find, deref. simpl.
    assert (Hget : dict_get k (data st ++ [(k, length (heap st))]) = Some (length (heap st))).
    { clear -Hk. induction (data st) as [|[k0 l0] d IH]; simpl in *.
      - now rewrite String.eqb_refl.
      - destruct (String.eqb k0 k); [discriminate | now apply IH]. }
    rewrite Hget. cbn [heap data].
    rewrite lookup_app_r, Nat.sub_diag by lia. simpl. now subst p.
  - intros l r Hk Hl. unfold mbind at 1, M_bind at 1. rewrite (Hknown l r Hk Hl).
    unfold show_phone, show_phone_func, input_error, mbind, M_bind, mret, M_ret,
      AddressBook.find, deref. simpl. rewrite Hk. cbn [heap data].
    rewrite list_lookup_insert_eq by (now apply lookup_lt_Some in Hl). simpl.
    rewrite map_app. simpl. now subst p.
Qed.

Lemma X19_show_phone_after_add_witness :
  fst ((add_contact ["Alice"; "+0509999999"];; show_phone ["Alice"])
         (mkState [mkRecord "Alice" [mkPhone "0501234567"] None] [("Alice", 0%nat)]))
  = Ok "0501234567, +0509999999".
Proof.
  apply (proj2 (X19_show_phone_after_add "Alice" "+0509999999" [] []
                  (mkPhone "+0509999999")
                  (mkState [mkRecord "Alice" [mkPhone "0501234567"] None]
                     [("Alice", 0%nat)]) eq_refl)
           0%nat (mkRecord "Alice" [mkPhone "0501234567"] None) eq_refl eq_refl).
Defined.

(** ** No exception out of a handler *)

Section Returns.

Lemma input_error_caught (func : M State string) (st : State) :
  caught (fst (func st)) -> exists msg, fst (input_error func st) = Ok msg.
Proof.
  unfold input_error. destruct (func st) as [[e | msg] st']; simpl; [| eauto].
  destruct e; simpl; eauto; tauto.
Qed.

Lemma add_phone_caught (phone : string) (r : Record_) :
  caught (fst (add_phone phone r)).
Proof.
  unfold add_phone. run_method.
  destruct (Phone_init_cases phone) as [E | E]; rewrite E; exact I.
Qed.

Lemma list_index_caught (x : Phone) (l : list Phone) : caught (list_index x l).
Proof.
  induction l as [|e l IH]; simpl; [exact I |].
  destruct (Phone_eq e (VPhone x)); [exact I |].
  destruct (list_index x l) as [err | i]; [exact IH | exact I].
Qed.

Lemma edit_phone_caught (old_phone new_phone : string) (r : Record_) :
  caught (fst (edit_phone old_phone new_phone r)).
Proof.
  unfold edit_phone. run_method.
  destruct (Phone_init_cases old_phone) as [E | E]; rewrite E; [| exact I].
  destruct (list_contains _ (phones r)); [| exact I].
  destruct (Phone_init_cases new_phone) as [E' | E']; rewrite E'; [| exact I].
  pose proof (list_index_caught (mkPhone old_phone) (phones r)) as Hi.
  destruct (list_index _ (phones r)); [exact Hi | exact I].
Qed.

Lemma Record_add_birthday_caught (s : string) (r : Record_) :
  caught (fst (Record_add_birthday s r)).
Proof.
  unfold Record_add_birthday. run_method.
  destruct (Birthday_init_cases s) as [[b E] | E]; rewrite E; exact I.
Qed.

Lemma call_caught {A} (l : loc) (method : M Record_ A) (st : State) :
  is_Some (heap st !! l) ->
  (forall r, caught (fst (method r))) ->
  caught (fst (call l method st)).
Proof.
  intros [r Hl] Hm. rewrite (call_found _ _ _ r Hl). apply Hm.
Qed.

Lemma bind_mret_caught {A} (m : M State A) (msg : string) (st : State) :
  caught (fst (m st)) -> caught (fst ((m;; mret msg) st)).
Proof.
  unfold mbind, M_bind, mret, M_ret. now destruct (m st) as [[e | a] st'].
Qed.

Lemma found_in_heap (st : State) (k : string) (l : loc) :
  wf_state st -> dict_get k (data st) = Some l -> is_Some (heap st !! l).
Proof. intros [Hrefs _] H. now apply Hrefs, (dict_get_value k). Qed.

(** [str_all] on references the store holds. *)
Lemma str_all_ok (ls : list loc) (st : State) :
  (forall l, In l ls -> is_Some (heap st !! l)) ->
  str_all ls st = (Ok (map Record_str (omap (fun l => heap st !! l) ls)), st).
Proof.
  induction ls as [|l ls IH]; intros Hrefs; [reflexivity |].
  destruct (Hrefs l (or_introl eq_refl)) as [r Hl].
  simpl. unfold mbind, M_bind, mret, M_ret, deref. rewrite Hl.
  rewrite IH by (intros; apply Hrefs; now right). reflexivity.
Qed.

(** The loop of the upcoming birthdays returns a list or raises the error
    of 29 February, when the day seven days after [today] exists. *)
Lemma upcoming_loop_caught (today last_day : date) (st : State)
    (ls : list loc) (acc : list string) :
  date_valid today = true ->
  date_add_days today 7 = Ok last_day ->
  wf_state st ->
  (forall l, In l ls -> is_Some (heap st !! l)) ->
  caught (fst (AddressBook.upcoming_loop today ls acc st)).
Proof.
  intros Htoday Hlast [_ Hdates]. revert acc.
  induction ls as [|l ls IH]; intros acc Hrefs; [exact I |].
  destruct (Hrefs l (or_introl eq_refl)) as [r Hl].
  assert (Hrest : forall l', In l' ls -> is_Some (heap st !! l'))
    by (intros; apply Hrefs; now right).
  destruct (birthday r) as [b|] eqn:Hb.
  - assert (Hv : date_valid (birthday_value b) = true)
      by (apply (Hdates r b); [now apply (heap_In st l) | assumption]).
    destruct (replace_year_cases today Htoday b Hv) as [E | E].
    + rewrite (upcoming_loop_step today last_day Hlast st l ls r acc Hl);
        [now apply IH |]. intros b' Hb'. congruence.
    + simpl. unfold mbind, M_bind, mret, M_ret, pure, deref.
      rewrite Hl, Hb, E. exact I.
  - rewrite (upcoming_loop_step today last_day Hlast st l ls r acc Hl)
      by congruence.
    now apply IH.
Qed.

(** On a well-formed book every handler returns a message. *)
Lemma handlers_return (st : State) (args : list string)
    (today last_day : date) :
  wf_state st ->
  (exists msg, fst (add_contact args st) = Ok msg) /\
  (exists msg, fst (change_phone args st) = Ok msg) /\
  (exists msg, fst (add_birthday args st) = Ok msg) /\
  (exists msg, fst (show_birthday args st) = Ok msg) /\
  (exists msg, fst (show_phone args st) = Ok msg) /\
  (exists msg, fst (show_all args st) = Ok msg) /\
  (date_valid today = true -> date_add_days today 7 = Ok last_day ->
     exists msg, fst (birthdays today args st) = Ok msg).
Proof.
  intros Hwf. repeat split.
  - destruct args as [|k [|phone rest]]; try (eexists; reflexivity).
    destruct (dict_get k (data st)) as [l|] eqn:Hfind.
    + rewrite (add_contact_known _ _ _ _ l Hfind).
      apply input_error_caught, bind_mret_caught, call_caught;
        [now apply (found_in_heap st k) | apply add_phone_caught].
    + rewrite (add_contact_new _ _ _ _ Hfind).
      apply input_error_caught, bind_mret_caught, call_caught;
        [| apply add_phone_caught].
      simpl. rewrite lookup_app_r, Nat.sub_diag by lia. simpl. eauto.
  - unfold change_phone, change_phone_func.
    destruct args as [|k [|old_phone [|new_phone rest]]]; try (eexists; reflexivity).
    apply input_error_caught. unfold mbind, M_bind, AddressBook.find. simpl.
    destruct (dict_get k (data st)) as [l|] eqn:Hfind; [| exact I].
    apply call_caught; [now apply (found_in_heap st k) | apply edit_phone_caught].
  - unfold add_birthday, add_birthday_func.
    destruct args as [|k [|s rest]]; try (eexists; reflexivity).
    apply input_error_caught. unfold mbind at 1, M_bind at 1, AddressBook.find. simpl.
    destruct (dict_get k (data st)) as [l|] eqn:Hfind; [| exact I].
    apply bind_mret_caught, call_caught;
      [now apply (found_in_heap st k) | apply Record_add_birthday_caught].
  - unfold show_birthday, show_birthday_func.
    destruct args as [|k rest]; [eexists; reflexivity |].
    apply input_error_caught. unfold mbind, M_bind, mret, M_ret, AddressBook.find, deref. simpl.
    destruct (dict_get k (data st)) as [l|] eqn:Hfind; [| exact I].
    destruct (found_in_heap st k l Hwf Hfind) as [r Hl]. rewrite Hl.
    now destruct (birthday r).
  - unfold show_phone, show_phone_func.
    destruct args as [|k rest]; [eexists; reflexivity |].
    apply input_error_caught. unfold mbind, M_bind, mret, M_ret, AddressBook.find, deref. simpl.
    destruct (dict_get k (data st)) as [l|] eqn:Hfind; [| exact I].
    destruct (found_in_heap st k l Hwf Hfind) as [r Hl]. now rewrite Hl.
  - apply input_error_caught. unfold show_all_func, mbind, M_bind, mret, M_ret, get.
    destruct (data st) as [|kv d] eqn:Hd; [exact I |]. rewrite <- Hd.
    rewrite str_all_ok by apply Hwf. exact I.
  - intros Htoday Hlast. apply input_error_caught.
    unfold birthdays_func, AddressBook.get_upcoming_birthdays, mbind, M_bind, get.
    pose proof (upcoming_loop_caught today last_day st (dict_values (data st)) []
                  Htoday Hlast Hwf (proj1 Hwf)) as Hc.
    destruct (AddressBook.upcoming_loop today (dict_values (data st)) [] st)
      as [[e | lines] st']; simpl in *; [exact Hc |].
    now destruct lines.
Qed.

End Returns.

(** X20: on a well-formed book, as every book of a session is, no handler
    lets an exception out: each returns a message, whatever the arguments.
    For [birthdays] this needs the day seven days after [today] to exist. *)
Theorem X20_handlers_return (st : State) (args : list string)
    (today last_day : date) :
  wf_state st ->
  (exists msg, fst (add_contact args st) = Ok msg) /\
  (exists msg, fst (change_phone args st) = Ok msg) /\
  (exists msg, fst (add_birthday args st) = Ok msg) /\
  (exists msg, fst (show_birthday args st) = Ok msg) /\
  (exists msg, fst (show_phone args st) = Ok msg) /\
  (exists msg, fst (show_all args st) = Ok msg) /\
  (date_valid today = true -> date_add_days today 7 = Ok last_day ->
     exists msg, fst (birthdays today args st) = Ok msg).
Proof. apply handlers_return. Qed.

Lemma X20_handlers_return_witness :
  (exists msg, fst (change_phone ["Alice"; "x"; "y"]
                      (mkState [mkRecord "Alice" [] None] [("Alice", 0%nat)])) = Ok msg) /\
  (exists msg, fst (birthdays (mkdate 2024 3 10) []
                      (mkState [mkRecord "Alice" [] None] [("Alice", 0%nat)])) = Ok msg).
Proof.
  destruct (X20_handlers_return
              (mkState [mkRecord "Alice" [] None] [("Alice", 0%nat)])
              ["Alice"; "x"; "y"] (mkdate 2024 3 10) (mkdate 2024 3 17))
    as (_ & Hchange & _).
  { split; simpl.
    - intros l [<- | []]; simpl; eauto.
    - intros r b [<- | []]; discriminate. }
  destruct (X20_handlers_return
              (mkState [mkRecord "Alice" [] None] [("Alice", 0%nat)])
              [] (mkdate 2024 3 10) (mkdate 2024 3 17))
    as (_ & _ & _ & _ & _ & _ & Hbirthdays).
  { split; simpl.
    - intros l [<- | []]; simpl; eauto.
    - intros r b [<- | []]; discriminate. }
  split; [exact Hchange | apply Hbirthdays; reflexivity].
Defined.

Section LastWeek.

(** From 25.12.9999 on there is no day seven days later. *)
Lemma last_week_overflow (today : date) :
  year today = 9999 -> month today = 12 -> 25 <= day today <= 31 ->
  date_add_days today 7 = Raise (OverflowError "date value out of range").
Proof.
  destruct today as [y m d]. simpl. intros -> -> Hd. enumerate d; reflexivity.
Qed.

End LastWeek.

(** X21: an exception [birthdays] lets out.  In the last week of the year
    9999, when the first record of the book has its birthday on [today] or
    later in December, computing the end of the window raises
    [OverflowError], which [input_error] does not catch. *)
Theorem X21_birthdays_overflow (st : State) (today : date) (args : list string)
    (k : string) (l : loc) (d : list (string * loc)) (r : Record_) (b : Birthday) :
  data st = (k, l) :: d ->
  heap st !! l = Some r ->
  birthday r = Some b ->
  year today = 9999 -> month today = 12 -> 25 <= day today <= 31 ->
  month (birthday_value b) = 12 ->
  day today <= day (birthday_value b) <= 31 ->
  birthdays today args st
  = (Raise (OverflowError "date value out of range"), st).
Proof.
  intros Hdata Hl Hb Hy Hm Hd Hbm Hbd.
  unfold birthdays, input_error, birthdays_func,
    AddressBook.get_upcoming_birthdays, mbind at 1 2, M_bind at 1 2, get.
  rewrite Hdata. simpl. unfold mbind, M_bind, mret, M_ret, pure, deref.
  rewrite Hl, Hb.
  assert (E : date_replace_year (birthday_value b) (year today)
              = Ok (mkdate 9999 12 (day (birthday_value b)))).
  { unfold date_replace_year. rewrite Hy, Hbm. apply date_new_ok.
    split; [reflexivity |]. unfold date_valid. simpl.
    change (days_in_month 9999 12) with 31.
    destruct (Z.leb_spec 1 (day (birthday_value b))),
             (Z.leb_spec (day (birthday_value b)) 31); solve [lia | reflexivity]. }
  rewrite E.
  assert (Hle : date_le today (mkdate 9999 12 (day (birthday_value b))) = true).
  { unfold date_le. simpl. rewrite Hy, Hm. simpl.
    apply Z.leb_le. lia. }
  rewrite Hle, (last_week_overflow today Hy Hm Hd). reflexivity.
Qed.

Lemma X21_birthdays_overflow_witness :
  birthdays (mkdate 9999 12 28) []
    (mkState [mkRecord "Alice" [] (Some (mkBirthday (mkdate 1990 12 31)))]
       [("Alice", 0%nat)])
  = (Raise (OverflowError "date value out of range"),
     mkState [mkRecord "Alice" [] (Some (mkBirthday (mkdate 1990 12 31)))]
       [("Alice", 0%nat)]).
Proof.
  apply (X21_birthdays_overflow
           (mkState [mkRecord "Alice" [] (Some (mkBirthday (mkdate 1990 12 31)))]
              [("Alice", 0%nat)])
           (mkdate 9999 12 28) [] "Alice" 0%nat []
           (mkRecord "Alice" [] (Some (mkBirthday (mkdate 1990 12 31))))
           (mkBirthday (mkdate 1990 12 31)));
    try reflexivity; simpl; lia.
Defined.

(** X22: [show_all] on a well-formed book answers "No contacts in address
    book." when the book is empty, and otherwise one line for each
    contact, in the order of the book, each line showing the name, the
    phones and the birthday of the contact; it changes nothing. *)
Theorem X22_show_all_lines (st : State) (args : list string) :
  wf_state st ->
  show_all args st
  = (Ok (match data st with
         | [] => "No contacts in address book."
         | _ => join newline (map Record_str (records_of st))
         end), st).
Proof.
  intros [Hrefs _].
  pose proof (str_all_ok (dict_values (data st)) st Hrefs) as Hall.
  unfold show_all, input_error, show_all_func, mbind, M_bind, mret, M_ret, get,
    records_of.
  destruct (data st) as [|kv d]; [reflexivity |]. now rewrite Hall.
Qed.

Lemma X22_show_all_lines_witness :
  show_all []
    (mkState [mkRecord "Alice" [mkPhone "0501234567"; mkPhone "0509999999"]
                (Some (mkBirthday (mkdate 1990 3 15)));
              mkRecord "Bob" [] None]
       [("Alice", 0%nat); ("Bob", 1%nat)])
  = (Ok ("Contact name: Alice, phones: 0501234567, 0509999999, birthday: 15.03.1990"
         ++ newline ++ "Contact name: Bob, phones: , birthday: No birthday set"),
     mkState [mkRecord "Alice" [mkPhone "0501234567"; mkPhone "0509999999"]
                (Some (mkBirthday (mkdate 1990 3 15)));
              mkRecord "Bob" [] None]
       [("Alice", 0%nat); ("Bob", 1%nat)]).
Proof.
  apply (X22_show_all_lines
           (mkState [mkRecord "Alice" [mkPhone "0501234567"; mkPhone "0509999999"]
                       (Some (mkBirthday (mkdate 1990 3 15)));
                     mkRecord "Bob" [] None]
              [("Alice", 0%nat); ("Bob", 1%nat)]) []).
  split; simpl.
  - intros l [<- | [<- | []]]; simpl; eauto.
  - intros r b [<- | [<- | []]] [= <-]; reflexivity.
Defined.

(** ** Reading a command line *)

Section Words.

Import Text.

Lemma no_space_app (a b : string) :
  no_space (a ++ b) = no_space a && no_space b.
Proof.
  induction a as [|c a IH]; simpl; [reflexivity |].
  now rewrite IH, andb_assoc.
Qed.

Lemma append_not_empty (a : string) (c : ascii) : a ++ String c "" <> "".
Proof. destruct a; discriminate. Qed.

Lemma split_all_space (w : option string) (s : string) :
  all_space s = true ->
  str_split_from w s = match w with Some t => [t] | None => [] end.
Proof.
  revert w. induction s as [|c s IH]; simpl; intros w Hs; [reflexivity |].
  apply andb_true_iff in Hs as [Hc Hs]. rewrite Hc.
  destruct w; now rewrite IH.
Qed.

Lemma split_lstrip (s : string) :
  str_split_from None (str_lstrip s) = str_split_from None s.
Proof.
  induction s as [|c s IH]; simpl; [reflexivity |].
  destruct (is_space c) eqn:Hc; [assumption |]. simpl. now rewrite Hc.
Qed.

Lemma rstrip_empty (s : string) : str_rstrip s = "" -> all_space s = true.
Proof.
  induction s as [|c s IH]; simpl; [reflexivity |].
  destruct (str_rstrip s) as [|c' r]; [| discriminate].
  destruct (is_space c); [auto | discriminate].
Qed.

Lemma split_rstrip (w : option string) (s : string) :
  str_split_from w (str_rstrip s) = str_split_from w s.
Proof.
  revert w. induction s as [|c s IH]; intros w; [reflexivity |].
  simpl. destruct (str_rstrip s) as [|c' r] eqn:Hr.
  - apply rstrip_empty in Hr. destruct (is_space c) eqn:Hc; simpl.
    + rewrite (split_all_space None s Hr). now destruct w.
    + rewrite Hc. now rewrite (split_all_space _ s Hr).
  - simpl. destruct (is_space c); [destruct w |]; now rewrite <- IH.
Qed.

(** The calls of [strip] before and after [split] change nothing. *)
Lemma split_strip (s : string) : str_split (str_strip s) = str_split s.
Proof. unfold str_split, str_strip. now rewrite split_rstrip, split_lstrip. Qed.

Lemma split_words (w : option string) (s : string) :
  match w with Some t => word t | None => True end ->
  Forall word (str_split_from w s).
Proof.
  revert w. induction s as [|c s IH]; simpl; intros w Hw.
  - destruct w; [constructor; [assumption | constructor] | constructor].
  - destruct (is_space c) eqn:Hc.
    + destruct w; [constructor; [assumption |] |]; now apply IH.
    + apply IH. destruct w as [t|]; split.
      * apply append_not_empty.
      * rewrite no_space_app. simpl. rewrite Hc. now rewrite (proj2 Hw).
      * discriminate.
      * simpl. now rewrite Hc.
Qed.

Lemma split_empty (s : string) :
  str_split s = [] <-> all_space s = true.
Proof.
  split; [| apply (split_all_space None)].
  unfold str_split.
  assert (Hsome : forall s t, str_split_from (Some t) s <> []).
  { clear. induction s as [|c s IH]; simpl; intros t; [discriminate |].
    destruct (is_space c); [discriminate | apply IH]. }
  induction s as [|c s IH]; simpl; [reflexivity |].
  destruct (is_space c); [exact IH |]. intros H. now apply Hsome in H.
Qed.

Lemma strip_word (t : string) : no_space t = true -> str_strip t = t.
Proof.
  intros Ht. unfold str_strip.
  assert (E : str_lstrip t = t).
  { destruct t as [|c t]; [reflexivity |]. simpl in *.
    apply andb_true_iff in Ht as [Hc _]. apply negb_true_iff in Hc. now rewrite Hc. }
  rewrite E. clear E. induction t as [|c t IH]; [reflexivity |].
  simpl in *. apply andb_true_iff in Ht as [Hc Ht]. apply negb_true_iff in Hc.
  rewrite (IH Ht), Hc. now destruct t.
Qed.

Lemma lower_char_space (c : ascii) : is_space (lower_char c) = is_space c.
Proof. destruct c as [[] [] [] [] [] [] [] []]; reflexivity. Qed.

Lemma lower_char_twice (c : ascii) : lower_char (lower_char c) = lower_char c.
Proof. destruct c as [[] [] [] [] [] [] [] []]; reflexivity. Qed.

Lemma lower_word (t : string) : word t -> word (str_lower t).
Proof.
  intros [Hne Hns]. split.
  - destruct t; [congruence | discriminate].
  - clear Hne. induction t as [|c t IH]; [reflexivity |]. simpl in *.
    apply andb_true_iff in Hns as [Hc Ht]. now rewrite lower_char_space, Hc, IH.
Qed.

Lemma lower_twice (t : string) : str_lower (str_lower t) = str_lower t.
Proof.
  induction t as [|c t IH]; [reflexivity |]. simpl.
  now rewrite lower_char_twice, IH.
Qed.

(** What [parse_input] returns, in terms of the words of the line. *)
Lemma parse_input_split (s : string) :
  parse_input s
  = match str_split s with
    | [] => Raise (IndexError "list index out of range")
    | part0 :: args => Ok (str_lower part0, args)
    end.
Proof.
  unfold parse_input. rewrite split_strip.
  pose proof (split_words None s I) as Hw. fold (str_split s) in Hw.
  destruct (str_split s) as [|part0 args]; [reflexivity |].
  apply Forall_cons in Hw as [[_ H0] _]. now rewrite (strip_word _ H0).
Qed.

Lemma split_word_then (t rest : string) (w : option string) :
  no_space t = true ->
  str_split_from w (t ++ rest)
  = str_split_from
      (match t, w with
       | EmptyString, _ => w
       | _, Some x => Some (x ++ t)
       | _, None => Some t
       end) rest.
Proof.
  revert w. induction t as [|c t IH]; intros w Ht; [reflexivity |].
  simpl in Ht. apply andb_true_iff in Ht as [Hc Ht]. apply negb_true_iff in Hc.
  simpl. rewrite Hc, (IH _ Ht).
  destruct t as [|c' t]; [now destruct w |].
  destruct w; simpl; [now rewrite append_assoc | reflexivity].
Qed.

(** Splitting the words joined by one blank gives the words back. *)
Lemma split_join (ts : list string) :
  Forall word ts -> str_split (join " " ts) = ts.
Proof.
  unfold str_split. induction ts as [|t ts IH]; intros Hts; [reflexivity |].
  apply Forall_cons in Hts as [[Hne Hns] Hts].
  destruct ts as [|t' ts].
  - simpl. rewrite <- (append_nil_r t) at 1. rewrite (split_word_then _ _ _ Hns).
    destruct t; [congruence | reflexivity].
  - change (join " " (t :: t' :: ts)) with (t ++ " " ++ join " " (t' :: ts)).
    rewrite (split_word_then _ _ _ Hns).
    destruct t as [|c t]; [congruence |].
    change (str_split_from (Some (String c t)) (" " ++ join " " (t' :: ts)))
      with (String c t :: str_split_from None (join " " (t' :: ts))).
    now rewrite (IH Hts).
Qed.

End Words.

(** X23: [parse_input] raises [IndexError] exactly on the lines that are
    empty or made of white space only; on every other line it returns a
    command and its arguments. *)
Theorem X23_parse_input_blank (s : string) :
  (parse_input s = Raise (IndexError "list index out of range")
   <-> Text.all_space s = true) /\
  ((exists command args, parse_input s = Ok (command, args))
   <-> Text.all_space s = false).
Proof.
  rewrite parse_input_split. pose proof (split_empty s) as Hempty.
  destruct (Text.str_split s) as [|part0 args]; split; split.
  - intros _. now apply Hempty.
  - reflexivity.
  - intros (c & a & H). discriminate.
  - intros H. rewrite (proj1 Hempty eq_refl) in H. discriminate.
  - discriminate.
  - intros H. apply Hempty in H. discriminate.
  - intros _. destruct (Text.all_space s); [| reflexivity].
    pose proof (proj2 Hempty eq_refl) as H. discriminate H.
  - eauto.
Qed.

(** X24: what [parse_input] returns are the words of the line: the
    command is the first word in lower case, so that putting it in lower
    case again changes nothing, the arguments are the other words in
    their order, and no word is empty or has white space in it. *)
Theorem X24_parse_input_words (s command : string) (args : list string) :
  parse_input s = Ok (command, args) ->
  (exists part0, Text.str_split s = part0 :: args /\
                 command = Text.str_lower part0) /\
  Text.word command /\ Text.str_lower command = command /\
  Forall Text.word args.
Proof.
  rewrite parse_input_split.
  pose proof (split_words None s I) as Hw. fold (Text.str_split s) in Hw.
  destruct (Text.str_split s) as [|part0 args']; [discriminate |].
  intros [= <- <-]. apply Forall_cons in Hw as [H0 Hargs].
  repeat split; eauto using lower_twice; now apply lower_word.
Qed.

Lemma X24_parse_input_words_witness :
  Text.word "add" /\ Text.str_lower "add" = "add" /\
  Forall Text.word ["Alice"; "0501234567"].
Proof.
  apply (X24_parse_input_words "  ADD Alice   0501234567 " "add"
           ["Alice"; "0501234567"]).
  reflexivity.
Defined.

(** X25: a command and arguments that are words, joined by one blank each,
    are read back by [parse_input]: the command in lower case and the
    arguments as they are. *)
Theorem X25_parse_input_of_join (command : string) (args : list string) :
  Forall Text.word (command :: args) ->
  parse_input (join " " (command :: args)) = Ok (Text.str_lower command, args).
Proof.
  intros Hw. rewrite parse_input_split. now rewrite (split_join _ Hw).
Qed.

Lemma X25_parse_input_of_join_witness :
  parse_input (join " " ["Add-Birthday"; "Alice"; "15.03.1990"])
  = Ok ("add-birthday", ["Alice"; "15.03.1990"]).
Proof.
  apply (X25_parse_input_of_join "Add-Birthday" ["Alice"; "15.03.1990"]).
  repeat constructor; discriminate.
Defined.

(** ** The loop of [main] *)

Section MainLoop.

Lemma print_handler_inv (prints : list string) (handler : M State string)
    (st : State) (out : outcome) :
  print_handler prints handler st = Ok out ->
  exists msg, handler st = (Ok msg, snd (handler st)) /\
              out = Printed (prints ++ [msg]) (snd (handler st)).
Proof.
  unfold print_handler. destruct (handler st) as [[e | msg] st']; [discriminate |].
  intros [= <-]. eauto.
Qed.

Lemma print_handler_returns (prints : list string) (handler : M State string)
    (st : State) :
  (exists msg, fst (handler st) = Ok msg) ->
  exists out, print_handler prints handler st = Ok out.
Proof.
  unfold print_handler. intros [msg H].
  destruct (handler st) as [[e | msg'] st']; [discriminate | eauto].
Qed.

(** Closes the case of a command that is none of the three that change
    the book. *)
Ltac other_command :=
  right; right; right; split; [| reflexivity];
  simpl; intros [E | [E | [E | []]]]; solve [discriminate E | congruence].

(** The state after a turn, for each command. *)
Lemma main_step_state (today : date) (s : string) (st : State) (out : outcome) :
  main_step today s st = Ok out ->
  exists command args, parse_input s = Ok (command, args) /\
    match out with
    | Finished lines saved => lines = ["Good bye!"] /\ saved = st
    | Printed _ st' =>
        (command = "add" /\ st' = snd (add_contact args st)) \/
        (command = "change" /\ st' = snd (change_phone args st)) \/
        (command = "add-birthday" /\ st' = snd (add_birthday args st)) \/
        (~ In command ["add"; "change"; "add-birthday"] /\ st' = st)
    end.
Proof.
  unfold main_step. destruct (parse_input s) as [e | [command args]]; [discriminate |].
  intros H. exists command, args. split; [reflexivity |].
  destruct (String.eqb_spec command "close") as [-> | Hclose];
    [injection H as <-; split; reflexivity |].
  destruct (String.eqb_spec command "exit") as [-> | Hexit];
    [injection H as <-; split; reflexivity |].
  simpl in H.
  destruct (String.eqb_spec command "hello") as [-> | Hhello];
    [injection H as <-; other_command |].
  destruct (String.eqb_spec command "add") as [-> | Hadd];
    [apply print_handler_inv in H as (msg & _ & ->); left; split; reflexivity |].
  destruct (String.eqb_spec command "change") as [-> | Hchange];
    [apply print_handler_inv in H as (msg & _ & ->);
     right; left; split; reflexivity |].
  destruct (String.eqb_spec command "phone") as [-> | Hphone];
    [apply print_handler_inv in H as (msg & _ & ->);
     rewrite show_phone_reads; other_command |].
  destruct (String.eqb_spec command "all") as [-> | Hall];
    [apply print_handler_inv in H as (msg & _ & ->);
     rewrite show_all_reads; other_command |].
  destruct (String.eqb_spec command "add-birthday") as [-> | Haddb];
    [apply print_handler_inv in H as (msg & _ & ->);
     right; right; left; split; reflexivity |].
  destruct (String.eqb_spec command "show-birthday") as [-> | Hshowb];
    [apply print_handler_inv in H as (msg & _ & ->);
     rewrite show_birthday_reads; other_command |].
  destruct (String.eqb_spec command "birthdays") as [-> | Hbirthdays];
    [apply print_handler_inv in H as (msg & _ & ->);
     rewrite birthdays_reads; other_command |].
  injection H as <-. other_command.
Qed.

End MainLoop.



(** X27: on a well-formed book, when the day seven days after [today]
    exists, a turn of the loop ends the program with an exception exactly
    when the line is empty or white space only, and then with the
    [IndexError] of [parse_input]; every other line is answered. *)
Theorem X27_main_step_raises (today last_day : date) (s : string) (st : State) :
  wf_state st ->
  date_valid today = true ->
  date_add_days today 7 = Ok last_day ->
  (Text.all_space s = true ->
     main_step today s st = Raise (IndexError "list index out of range")) /\
  (Text.all_space s = false -> exists out, main_step today s st = Ok out).
Proof.
  intros Hwf Htoday Hlast. unfold main_step. rewrite parse_input_split.
  pose proof (split_empty s) as Hempty.
  destruct (Text.str_split s) as [|part0 args]; split.
  - reflexivity.
  - intros H. rewrite (proj1 Hempty eq_refl) in H. discriminate.
  - intros H. apply Hempty in H. discriminate.
  - intros _.
    destruct (handlers_return st args today last_day Hwf)
      as (Hadd & Hchange & Hbirthday & Hshowb & Hphone & Hall & Hbirthdays).
    repeat match goal with
    | |- context [if ?c then _ else _] => destruct c
    end; eauto using print_handler_returns.
Qed.

Lemma X27_main_step_raises_witness :
  main_step (mkdate 2024 3 10) "   " AddressBook_init
  = Raise (IndexError "list index out of range").
Proof.
  apply (proj1 (X27_main_step_raises (mkdate 2024 3 10) (mkdate 2024 3 17) "   "
                  AddressBook_init wf_init eq_refl eq_refl)).
  reflexivity.
Defined.

(** X28: the loop goes through reachable states only: after a turn on a
    book that a session has reached, the book is again one that a session
    reaches, so every invariant of the reachable states holds all along
    the loop. *)
Theorem X28_main_step_reachable (today : date) (s : string) (st st' : State)
    (lines : list string) :
  reachable st ->
  main_step today s st = Ok (Printed lines st') ->
  reachable st'.
Proof.
  intros Hreach H.
  destruct (main_step_state _ _ _ _ H) as (command & args & _ & Hout).
  destruct Hout as [[_ ->] | [[_ ->] | [[_ ->] | [_ ->]]]];
    [| | | assumption]; apply (reachable_step st); try assumption; constructor.
Qed.

Lemma X28_main_step_reachable_witness :
  reachable (mkState [mkRecord "Alice" [mkPhone "0501234567"] None] [("Alice", 0%nat)]).
Proof.
  apply (X28_main_step_reachable (mkdate 2024 3 10) "add Alice 0501234567"
           AddressBook_init _
           ["Adding contact: Alice, phone: 0501234567"; "Contact added."]).
  - constructor.
  - reflexivity.
Defined.
